(** * MizitoForwarder: credential lifecycle and delivery with recovery

    A shallow embedding of the Go packages [jwt] (token store),
    [mizito/auth.go] (login, ensure-valid, refresh) and
    [mizito/message.go] (send with retry), with the environment they run
    in written out as an explicit world: the token file, the wall clock,
    the two upstream endpoints and a trace of the calls made.

    Conventions.
    - A Go [string] is a byte sequence: [string] of [Stdlib.Strings].
    - A [time.Time] is its instant, in nanoseconds since the Unix epoch.
    - A Go [error] result is an [option]: [None] is [nil].
    - The lexical layer of [encoding/json] (bytes to value tree) is not
      modelled: a document is either [Malformed] or a value tree [Tree].
      What [json.Unmarshal] does with a tree, and what [json.Marshal]
      produces, is modelled per target type.
    - There is one clock: the wall and monotonic readings of [time.Now]
      are not told apart.
    - Logging goes to stdout only and is left out, with the clock
      readings it makes. *)

From Stdlib Require Import ZArith List String Ascii Bool Lia.
Import ListNotations.
Local Open Scope string_scope.
Local Open Scope Z_scope.
Set Warnings "-register-all".

(** ** JSON documents *)

Inductive json : Type :=
| JNull
| JBool (b : bool)
| JNumber (literal : string)
| JString (s : string)
| JArray (items : list json)
| JObject (fields : list (string * json)).

Inductive Doc : Type :=
| Malformed
| Tree (j : json).

(** *** Strings: coercion to valid UTF-8

    [json.Marshal] writes a Go string "coerced to valid UTF-8, replacing
    invalid bytes with the Unicode replacement rune". The decoder below
    follows [utf8.DecodeRuneInString]: it yields the number of bytes of the
    well-formed sequence at the head of the string, or [0] when the first
    byte does not start one (Go then consumes one byte as U+FFFD). *)

Definition byteZ (c : ascii) : Z := Z.of_N (N_of_ascii c).

Definition inRange (lo hi : Z) (c : ascii) : bool :=
  (lo <=? byteZ c) && (byteZ c <=? hi).

Definition isCont (c : ascii) : bool := inRange 128 191 c.

Definition runeLen (s : string) : nat :=
  match s with
  | EmptyString => 0%nat
  | String b0 r0 =>
    if byteZ b0 <? 128 then 1%nat
    else match r0 with
    | EmptyString => 0%nat
    | String b1 r1 =>
      if inRange 194 223 b0 then (if isCont b1 then 2%nat else 0%nat)
      else match r1 with
      | EmptyString => 0%nat
      | String b2 r2 =>
        if inRange 224 239 b0 then
          if (if byteZ b0 =? 224 then inRange 160 191 b1
              else if byteZ b0 =? 237 then inRange 128 159 b1
              else isCont b1) && isCont b2
          then 3%nat else 0%nat
        else match r2 with
        | EmptyString => 0%nat
        | String b3 _ =>
          if inRange 240 244 b0 then
            if (if byteZ b0 =? 240 then inRange 144 191 b1
                else if byteZ b0 =? 244 then inRange 128 143 b1
                else isCont b1) && isCont b2 && isCont b3
            then 4%nat else 0%nat
          else 0%nat
        end
      end
    end
  end.

(** U+FFFD in UTF-8: EF BF BD. *)
Definition replacementRune : string :=
  String (ascii_of_nat 239) (String (ascii_of_nat 191)
    (String (ascii_of_nat 189) EmptyString)).

Fixpoint takeS (n : nat) (s : string) : string :=
  match n, s with
  | S n', String c r => String c (takeS n' r)
  | _, _ => EmptyString
  end.

Fixpoint dropS (n : nat) (s : string) : string :=
  match n, s with
  | S n', String _ r => dropS n' r
  | _, _ => s
  end.

(** [fuel] bounds the number of runes; [String.length s] is always enough. *)
Fixpoint coerceUTF8 (fuel : nat) (s : string) : string :=
  match fuel with
  | O => EmptyString
  | S fuel' =>
    match s with
    | EmptyString => EmptyString
    | String c r =>
      match runeLen s with
      | O => replacementRune ++ coerceUTF8 fuel' r
      | n => takeS n s ++ coerceUTF8 fuel' (dropS n s)
      end
    end
  end.

Definition toValidUTF8 (s : string) : string := coerceUTF8 (String.length s) s.

Fixpoint validFrom (fuel : nat) (s : string) : bool :=
  match fuel with
  | O => match s with EmptyString => true | _ => false end
  | S fuel' =>
    match s with
    | EmptyString => true
    | String _ _ =>
      match runeLen s with
      | O => false
      | n => validFrom fuel' (dropS n s)
      end
    end
  end.

(** [utf8.ValidString]. *)
Definition validUTF8 (s : string) : bool := validFrom (String.length s) s.

(** *** Decoding helpers shared by the target types *)

Definition lowerAscii (c : ascii) : ascii :=
  if inRange 65 90 c then ascii_of_N (N_of_ascii c + 32) else c.

Fixpoint lowerS (s : string) : string :=
  match s with
  | EmptyString => EmptyString
  | String c r => String (lowerAscii c) (lowerS r)
  end.

(** A JSON key selects a struct field when it equals the field's tag,
    ignoring case (ASCII letters only here). *)
Definition keyIs (tag key : string) : bool := String.eqb (lowerS key) tag.

Definition isDigit (c : ascii) : bool := inRange 48 57 c.

Fixpoint digits (acc : Z) (s : string) : option Z :=
  match s with
  | EmptyString => Some acc
  | String c r => if isDigit c then digits (10 * acc + (byteZ c - 48)) r else None
  end.

Definition minInt64 : Z := - 2 ^ 63.
Definition maxInt64 : Z := 2 ^ 63 - 1.

(** [strconv.ParseInt(lit, 10, 64)] on a JSON number literal. *)
Definition parseInt (lit : string) : option Z :=
  let signed :=
    match lit with
    | String "-" (String c r) => option_map Z.opp (digits 0 (String c r))
    | String c r => digits 0 (String c r)
    | EmptyString => None
    end in
  match signed with
  | Some n => if (minInt64 <=? n) && (n <=? maxInt64) then Some n else None
  | None => None
  end.

(** A string field: [null] leaves it alone, a string sets it, anything else
    is an [UnmarshalTypeError]. *)
Definition decString (old : string) (v : json) : option string :=
  match v with
  | JNull => Some old
  | JString s => Some s
  | _ => None
  end.

Definition decInt (old : Z) (v : json) : option Z :=
  match v with
  | JNull => Some old
  | JNumber lit => parseInt lit
  | _ => None
  end.

(** [json.Unmarshal(body, &boolResp)] for [type BoolResponse bool]. *)
Definition unmarshalBool (d : Doc) : option bool :=
  match d with
  | Tree JNull => Some false
  | Tree (JBool b) => Some b
  | _ => None
  end.

(** ** mizito: wire types *)

Record MessageResponse : Type := mkMessageResponse {
  mrStatus : Z;
  mrMessage : string
}.

Record LoginResponse : Type := mkLoginResponse {
  lrStatus : Z;
  lrToken : string;
  lrLastLoginUID : string
}.

Fixpoint fillMessageResponse (fs : list (string * json)) (r : MessageResponse)
  : option MessageResponse :=
  match fs with
  | [] => Some r
  | (k, v) :: rest =>
    if keyIs "status" k then
      match decInt (mrStatus r) v with
      | Some n => fillMessageResponse rest (mkMessageResponse n (mrMessage r))
      | None => None
      end
    else if keyIs "message" k then
      match decString (mrMessage r) v with
      | Some s => fillMessageResponse rest (mkMessageResponse (mrStatus r) s)
      | None => None
      end
    else fillMessageResponse rest r
  end.

Definition unmarshalMessageResponse (d : Doc) : option MessageResponse :=
  match d with
  | Tree JNull => Some (mkMessageResponse 0 "")
  | Tree (JObject fs) => fillMessageResponse fs (mkMessageResponse 0 "")
  | _ => None
  end.

Fixpoint fillLoginResponse (fs : list (string * json)) (r : LoginResponse)
  : option LoginResponse :=
  match fs with
  | [] => Some r
  | (k, v) :: rest =>
    if keyIs "status" k then
      match decInt (lrStatus r) v with
      | Some n => fillLoginResponse rest (mkLoginResponse n (lrToken r) (lrLastLoginUID r))
      | None => None
      end
    else if keyIs "token" k then
      match decString (lrToken r) v with
      | Some s => fillLoginResponse rest (mkLoginResponse (lrStatus r) s (lrLastLoginUID r))
      | None => None
      end
    else if keyIs "last_login_uid" k then
      match decString (lrLastLoginUID r) v with
      | Some s => fillLoginResponse rest (mkLoginResponse (lrStatus r) (lrToken r) s)
      | None => None
      end
    else fillLoginResponse rest r
  end.

Definition unmarshalLoginResponse (d : Doc) : option LoginResponse :=
  match d with
  | Tree JNull => Some (mkLoginResponse 0 "" "")
  | Tree (JObject fs) => fillLoginResponse fs (mkLoginResponse 0 "" "")
  | _ => None
  end.

(** ** The environment *)

(** Outcome of [client.Do] followed by [ioutil.ReadAll]. *)
Inductive HttpResult : Type :=
| TransportErr
| BodyReadErr (status : Z)
| Resp (status : Z) (body : Doc).

(** The token file named by [config.JWTTokenFile]. [Unreadable] stands for
    a path that exists but whose read fails (permissions, a directory). *)
Inductive FileState : Type :=
| Missing
| Unreadable
| Present (content : Doc).

Inductive Event : Type :=
| EvReadFile
| EvMkdirAll
| EvWriteFile
| EvRemove
| EvLogin
| EvSend (xtoken : string).

(** What the process cannot control: the clock, the upstream servers, the
    faults of the file system and the text form of instants
    ([Time.MarshalJSON], which fails outside the years 0..9999, and
    [Time.UnmarshalJSON]). The [n]-th call of a kind gets the [n]-th
    answer, so the theorems hold for every behaviour of the outside
    world. *)
Record Env : Type := mkEnv {
  now : nat -> Z;
  loginResp : nat -> HttpResult;
  sendResp : nat -> string -> HttpResult;
  tokenDirIsDot : bool;
  mkdirFails : bool;
  writeFault : option FileState;
  removeFails : bool;
  timeText : Z -> option string;
  parseTimeText : string -> option Z
}.

(** ** jwt: the token store *)

Record TokenData : Type := mkTokenData {
  Token : string;
  LastLoginUID : string;
  ExpiresAt : Z;
  UpdatedAt : Z
}.

(** The zero [time.Time] (January 1, year 1, UTC). *)
Definition zeroTime : Z := -62135596800 * 1000000000.

Definition zeroTokenData : TokenData := mkTokenData "" "" zeroTime zeroTime.

Definition hour : Z := 3600 * 1000000000.

Inductive GoError : Type :=
| ErrReadTokenFile
| ErrParseTokenData
| ErrMarshalTokenData
| ErrCreateTokenDir
| ErrWriteTokenFile
| ErrRemoveTokenFile
| ErrLoginRequestFailed
| ErrReadLoginResponse
| ErrLoginHTTPStatus (code : Z)
| ErrParseLoginResponse
| ErrLoginFailed (status : Z) (message : option string)
| ErrSaveJWT (cause : GoError)
| ErrEnsureValidToken (cause : GoError)
| ErrNoJWTToken
| ErrGetJWTToken (cause : GoError)
| ErrRefreshOnRetry (cause : GoError)
| ErrGetRefreshedToken (cause : GoError)
| ErrMessageRequestFailed
| ErrReadMessageResponse
| ErrUnauthorizedAfter (attempts : Z)
| ErrSendHTTPStatus (code : Z)
| ErrFalseResponse
| ErrSendStatus (status : Z) (message : string)
| ErrUnexpectedFormat
| ErrFailedAfter (attempts : Z) (last : option GoError).

(** The process: the store's in-memory record ([Manager.tokenData], [None]
    for [nil]), the token file, how many times the clock and each endpoint
    were consulted, and the calls made so far, oldest first. *)
Record World : Type := mkWorld {
  tokenData : option TokenData;
  file : FileState;
  ticks : nat;
  logins : nat;
  sends : nat;
  trace : list Event
}.

Definition M (A : Type) : Type := World -> A * World.

Definition ret {A} (a : A) : M A := fun w => (a, w).

Definition bind {A B} (m : M A) (k : A -> M B) : M B :=
  fun w => let (a, w') := m w in k a w'.

Notation "x <- m ;; k" := (bind m (fun x => k))
  (at level 61, m at next level, right associativity).
Notation "m ;;; k" := (bind m (fun _ => k))
  (at level 61, right associativity).

Definition emit (e : Event) : M unit :=
  fun w => (tt, mkWorld (tokenData w) (file w) (ticks w) (logins w) (sends w)
                        (trace w ++ [e])%list).

Definition setTokenData (t : option TokenData) : M unit :=
  fun w => (tt, mkWorld t (file w) (ticks w) (logins w) (sends w) (trace w)).

Definition setFile (f : FileState) : M unit :=
  fun w => (tt, mkWorld (tokenData w) f (ticks w) (logins w) (sends w) (trace w)).

Definition getTokenData : M (option TokenData) := fun w => (tokenData w, w).

Definition getFile : M FileState := fun w => (file w, w).

Section Program.

Variable E : Env.

(** [time.Now()]. *)
Definition timeNow : M Z :=
  fun w => (now E (ticks w),
            mkWorld (tokenData w) (file w) (S (ticks w)) (logins w) (sends w) (trace w)).

(** A [time.Time] field: [null] leaves it alone, a string is parsed,
    anything else is rejected by [Time.UnmarshalJSON]. *)
Definition decTime (old : Z) (v : json) : option Z :=
  match v with
  | JNull => Some old
  | JString s => parseTimeText E s
  | _ => None
  end.

Fixpoint fillTokenData (fs : list (string * json)) (r : TokenData) : option TokenData :=
  match fs with
  | [] => Some r
  | (k, v) :: rest =>
    if keyIs "token" k then
      match decString (Token r) v with
      | Some s => fillTokenData rest (mkTokenData s (LastLoginUID r) (ExpiresAt r) (UpdatedAt r))
      | None => None
      end
    else if keyIs "last_login_uid" k then
      match decString (LastLoginUID r) v with
      | Some s => fillTokenData rest (mkTokenData (Token r) s (ExpiresAt r) (UpdatedAt r))
      | None => None
      end
    else if keyIs "expires_at" k then
      match decTime (ExpiresAt r) v with
      | Some t => fillTokenData rest (mkTokenData (Token r) (LastLoginUID r) t (UpdatedAt r))
      | None => None
      end
    else if keyIs "updated_at" k then
      match decTime (UpdatedAt r) v with
      | Some t => fillTokenData rest (mkTokenData (Token r) (LastLoginUID r) (ExpiresAt r) t)
      | None => None
      end
    else fillTokenData rest r
  end.

(** [json.Unmarshal(file, &tokenData)] into a fresh [TokenData]. *)
Definition unmarshalTokenData (d : Doc) : option TokenData :=
  match d with
  | Tree JNull => Some zeroTokenData
  | Tree (JObject fs) => fillTokenData fs zeroTokenData
  | _ => None
  end.

(** [json.MarshalIndent(tokenData, "", "  ")]. *)
Definition marshalTokenData (t : TokenData) : option Doc :=
  match timeText E (ExpiresAt t), timeText E (UpdatedAt t) with
  | Some e, Some u =>
    Some (Tree (JObject [("token", JString (toValidUTF8 (Token t)));
                         ("last_login_uid", JString (toValidUTF8 (LastLoginUID t)));
                         ("expires_at", JString e);
                         ("updated_at", JString u)]))
  | _, _ => None
  end.

Definition LoadToken : M (option GoError) :=
  emit EvReadFile ;;;
  f <- getFile ;;
  match f with
  | Missing => ret None
  | Unreadable => ret (Some ErrReadTokenFile)
  | Present d =>
    match unmarshalTokenData d with
    | None => ret (Some ErrParseTokenData)
    | Some td => setTokenData (Some td) ;;; ret None
    end
  end.

Definition SaveToken (token lastLoginUID : string) : M (option GoError) :=
  t1 <- timeNow ;;
  t2 <- timeNow ;;
  let td := mkTokenData token lastLoginUID (t1 + 24 * hour) t2 in
  match marshalTokenData td with
  | None => ret (Some ErrMarshalTokenData)
  | Some d =>
    mk <- (if tokenDirIsDot E then ret false
           else emit EvMkdirAll ;;; ret (mkdirFails E)) ;;
    if mk then ret (Some ErrCreateTokenDir)
    else
      emit EvWriteFile ;;;
      match writeFault E with
      | Some f => setFile f ;;; ret (Some ErrWriteTokenFile)
      | None =>
        setFile (Present d) ;;;
        setTokenData (Some td) ;;;
        ret None
      end
  end.

Definition GetToken : M (string * bool) :=
  t <- getTokenData ;;
  match t with
  | None => ret ("", false)
  | Some td =>
    if String.eqb (Token td) "" then ret ("", false)
    else ret (Token td, true)
  end.

Definition IsTokenExpired : M bool :=
  t <- getTokenData ;;
  match t with
  | None => ret true
  | Some td => n <- timeNow ;; ret (ExpiresAt td <? n)
  end.

Definition ClearToken : M (option GoError) :=
  emit EvRemove ;;;
  f <- getFile ;;
  match f with
  | Missing => setTokenData None ;;; ret None
  | _ =>
    if removeFails E then ret (Some ErrRemoveTokenFile)
    else setFile Missing ;;; setTokenData None ;;; ret None
  end.

Definition HasValidToken : M bool :=
  t <- getTokenData ;;
  match t with
  | None => ret false
  | Some td =>
    if String.eqb (Token td) "" then ret false
    else n <- timeNow ;; ret (n <? ExpiresAt td)
  end.

(** ** mizito/auth.go *)

(** [ErrorResponse] has the fields and tags of [MessageResponse]. *)
Definition unmarshalErrorResponse (d : Doc) : option MessageResponse :=
  unmarshalMessageResponse d.

(** One round trip to an endpoint: the call is recorded and the
    environment answers. The request URLs are taken to be well formed, so
    [http.NewRequest] does not fail. *)
Definition doLogin : M HttpResult :=
  emit EvLogin ;;;
  fun w => (loginResp E (logins w),
            mkWorld (tokenData w) (file w) (ticks w) (S (logins w)) (sends w) (trace w)).

Definition doSend (xtoken : string) : M HttpResult :=
  emit (EvSend xtoken) ;;;
  fun w => (sendResp E (sends w) xtoken,
            mkWorld (tokenData w) (file w) (ticks w) (logins w) (S (sends w)) (trace w)).

Definition Login : M (option GoError) :=
  r <- doLogin ;;
  match r with
  | TransportErr => ret (Some ErrLoginRequestFailed)
  | BodyReadErr _ => ret (Some ErrReadLoginResponse)
  | Resp code body =>
    if negb (code =? 200) then ret (Some (ErrLoginHTTPStatus code))
    else
      match unmarshalLoginResponse body with
      | None => ret (Some ErrParseLoginResponse)
      | Some loginR =>
        if negb (lrStatus loginR =? 1) then
          match unmarshalErrorResponse body with
          | Some errorR =>
            ret (Some (ErrLoginFailed (lrStatus loginR) (Some (mrMessage errorR))))
          | None => ret (Some (ErrLoginFailed (lrStatus loginR) None))
          end
        else
          e <- SaveToken (lrToken loginR) (lrLastLoginUID loginR) ;;
          match e with
          | Some err => ret (Some (ErrSaveJWT err))
          | None => ret None
          end
      end
  end.

Definition EnsureValidToken : M (option GoError) :=
  v <- HasValidToken ;;
  if v then ret None
  else
    LoadToken ;;;
    v' <- HasValidToken ;;
    if v' then ret None
    else Login.

Definition RefreshToken : M (option GoError) :=
  ClearToken ;;;
  Login.

(** [AuthService.GetToken]: the token, or the error. *)
Definition AuthGetToken : M (string + GoError) :=
  e <- EnsureValidToken ;;
  match e with
  | Some err => ret (inr (ErrEnsureValidToken err))
  | None =>
    p <- GetToken ;;
    if snd p then ret (inl (fst p)) else ret (inr ErrNoJWTToken)
  end.

(** ** mizito/message.go *)

(** The head of the loop body, [if attempt > 0 { ... }]: on a retry the
    token is refreshed and fetched again. [inl] is the [x-token] header the
    request goes out with, [inr] the error that makes the loop
    [continue]. *)
Definition retryPrelude (attempt : nat) (xtoken : string) : M (string + GoError) :=
  if (0 <? attempt)%nat then
    e <- RefreshToken ;;
    match e with
    | Some err => ret (inr (ErrRefreshOnRetry err))
    | None =>
      t <- AuthGetToken ;;
      match t with
      | inr err => ret (inr (ErrGetRefreshedToken err))
      | inl token => ret (inl token)
      end
    end
  else ret (inl xtoken).

(** The loop of [sendMessageWithRetry]. [remaining] counts the iterations
    still to run, so the loop variable is
    [attempt = maxRetries - (remaining - 1)]; [xtoken] is the request's
    [x-token] header, which the loop overwrites in place; [continue] is the
    recursive call. *)
Fixpoint retryLoop (maxRetries remaining : nat) (xtoken : string)
    (lastErr : option GoError) : M (option GoError) :=
  match remaining with
  | O => ret (Some (ErrFailedAfter (Z.of_nat maxRetries + 1) lastErr))
  | S rest =>
    let attempt := (maxRetries - rest)%nat in
    pre <- retryPrelude attempt xtoken ;;
    match pre with
    | inr err => retryLoop maxRetries rest xtoken (Some err)
    | inl tok =>
      r <- doSend tok ;;
      match r with
      | TransportErr => retryLoop maxRetries rest tok (Some ErrMessageRequestFailed)
      | BodyReadErr _ => retryLoop maxRetries rest tok (Some ErrReadMessageResponse)
      | Resp code body =>
        if code =? 401 then
          if (attempt <? maxRetries)%nat then retryLoop maxRetries rest tok lastErr
          else ret (Some (ErrUnauthorizedAfter (Z.of_nat maxRetries + 1)))
        else if negb (code =? 200) then ret (Some (ErrSendHTTPStatus code))
        else
          match unmarshalBool body with
          | Some true => ret None
          | Some false => ret (Some ErrFalseResponse)
          | None =>
            match unmarshalMessageResponse body with
            | Some msgResp =>
              if negb (mrStatus msgResp =? 1)
              then ret (Some (ErrSendStatus (mrStatus msgResp) (mrMessage msgResp)))
              else ret None
            | None => ret (Some ErrUnexpectedFormat)
            end
          end
      end
    end
  end.

Definition sendMessageWithRetry (xtoken : string) (maxRetries : nat)
  : M (option GoError) :=
  retryLoop maxRetries (S maxRetries) xtoken None.

(** [SendMessage]: the payload is built from the text, the clock and a
    random number; only the [x-token] header matters to what follows. *)
Definition SendMessage (messageText : string) : M (option GoError) :=
  t <- AuthGetToken ;;
  match t with
  | inr err => ret (Some (ErrGetJWTToken err))
  | inl token =>
    timeNow ;;;
    sendMessageWithRetry token 2
  end.

End Program.

(** ** A reference environment

    The text form of instants for a process whose local zone is UTC:
    RFC 3339 with nanoseconds, [2006-01-02T15:04:05.999999999Z]. The civil
    date comes from the day number by the usual era/day-of-era split of the
    proleptic Gregorian calendar. *)

Module UTC.

Definition civilFromDays (z : Z) : Z * Z * Z :=
  let z := z + 719468 in
  let era := z / 146097 in
  let doe := z - era * 146097 in
  let yoe := (doe - doe / 1460 + doe / 36524 - doe / 146096) / 365 in
  let y := yoe + era * 400 in
  let doy := doe - (365 * yoe + yoe / 4 - yoe / 100) in
  let mp := (5 * doy + 2) / 153 in
  let d := doy - (153 * mp + 2) / 5 + 1 in
  let m := if mp <? 10 then mp + 3 else mp - 9 in
  (if m <=? 2 then y + 1 else y, m, d).

Definition daysFromCivil (y m d : Z) : Z :=
  let y := if m <=? 2 then y - 1 else y in
  let era := y / 400 in
  let yoe := y - era * 400 in
  let doy := (153 * (if 2 <? m then m - 3 else m + 9) + 2) / 5 + d - 1 in
  let doe := yoe * 365 + yoe / 4 - yoe / 100 + doy in
  era * 146097 + doe - 719468.

Definition digitChar (n : Z) : ascii := ascii_of_N (Z.to_N (48 + n mod 10)).

Fixpoint pad (width : nat) (n : Z) (acc : string) : string :=
  match width with
  | O => acc
  | S w => pad w (n / 10) (String (digitChar n) acc)
  end.

Fixpoint trimZeros (fuel : nat) (n : Z) (width : nat) : Z * nat :=
  match fuel with
  | O => (n, width)
  | S f => if (n mod 10 =? 0) then trimZeros f (n / 10) (pred width) else (n, width)
  end.

Definition fraction (nanos : Z) : string :=
  if nanos =? 0 then ""
  else let (n, w) := trimZeros 9 nanos 9 in String "." (pad w n "").

Definition timeText (t : Z) : option string :=
  let secs := t / 1000000000 in
  let nanos := t mod 1000000000 in
  let days := secs / 86400 in
  let rem := secs mod 86400 in
  let '(y, m, d) := civilFromDays days in
  if (y <? 0) || (9999 <? y) then None
  else Some (pad 4 y "" ++ "-" ++ pad 2 m "" ++ "-" ++ pad 2 d "" ++ "T"
             ++ pad 2 (rem / 3600) "" ++ ":" ++ pad 2 (rem mod 3600 / 60) "" ++ ":"
             ++ pad 2 (rem mod 60) "" ++ fraction nanos ++ "Z")%string.

Definition num (s : string) : option Z :=
  match s with
  | EmptyString => None
  | _ => digits 0 s
  end.

Definition isLeap (y : Z) : bool :=
  (y mod 4 =? 0) && (negb (y mod 100 =? 0) || (y mod 400 =? 0)).

Definition daysIn (y m : Z) : Z :=
  if m =? 2 then (if isLeap y then 29 else 28)
  else if (m =? 4) || (m =? 6) || (m =? 9) || (m =? 11) then 30 else 31.

Definition scale (frac : string) : option Z :=
  match frac with
  | EmptyString => Some 0
  | String "." ds =>
    match num (takeS 9 ds), num ds with
    | Some n, Some _ => Some (n * 10 ^ (9 - Z.of_nat (String.length (takeS 9 ds))))
    | _, _ => None
    end
  | _ => None
  end.

Fixpoint dropLast (s : string) : string * option ascii :=
  match s with
  | EmptyString => (EmptyString, None)
  | String c EmptyString => (EmptyString, Some c)
  | String c r => let (i, l) := dropLast r in (String c i, l)
  end.

(** Accepts the UTC form only (a trailing [Z]). *)
Definition parseTimeText (s : string) : option Z :=
  let (body, last) := dropLast s in
  match last with
  | Some "Z"%char =>
    match num (takeS 4 body), num (takeS 2 (dropS 5 body)), num (takeS 2 (dropS 8 body)),
          num (takeS 2 (dropS 11 body)), num (takeS 2 (dropS 14 body)),
          num (takeS 2 (dropS 17 body)), scale (dropS 19 body) with
    | Some y, Some m, Some d, Some h, Some mi, Some sec, Some ns =>
      if String.eqb (takeS 1 (dropS 4 body)) "-" && String.eqb (takeS 1 (dropS 7 body)) "-"
         && String.eqb (takeS 1 (dropS 10 body)) "T" && String.eqb (takeS 1 (dropS 13 body)) ":"
         && String.eqb (takeS 1 (dropS 16 body)) ":"
         && (1 <=? m) && (m <=? 12) && (1 <=? d) && (d <=? daysIn y m)
         && (h <? 24) && (mi <? 60) && (sec <? 60)
      then Some ((daysFromCivil y m d * 86400 + h * 3600 + mi * 60 + sec) * 1000000000 + ns)
      else None
    | _, _, _, _, _, _, _ => None
    end
  | _ => None
  end.

End UTC.

(** A well-behaved outside world: the [n]-th reading of the clock is [n]
    seconds after [start], the file system has no faults, and the servers
    answer as given. *)
Definition quietEnv (start : Z) (login : nat -> HttpResult)
    (send : nat -> string -> HttpResult) : Env :=
  mkEnv (fun n => start + Z.of_nat n * 1000000000) login send
        true false None false UTC.timeText UTC.parseTimeText.

Definition emptyWorld : World := mkWorld None Missing 0 0 0 [].

(** Midnight, 31 October 2026, UTC. *)
Definition t0 : Z := 1793404800 * 1000000000.

Definition loginOK (token uid : string) : HttpResult :=
  Resp 200 (Tree (JObject [("status", JNumber "1"); ("token", JString token);
                           ("last_login_uid", JString uid)])).

(** ** jwt: the other accessor *)

Definition GetTokenWithUID : M (string * string * bool) :=
  t <- getTokenData ;;
  match t with
  | None => ret ("", "", false)
  | Some td =>
    if String.eqb (Token td) "" then ret ("", "", false)
    else ret (Token td, LastLoginUID td, true)
  end.

(** ** mizito/message.go: the date and time strings *)

(** [string(persianDigits[digit])]: the rune U+06F0 + digit in UTF-8, the
    bytes DB B0 .. DB B9. *)
Definition persianDigit (digit : Z) : string :=
  String (ascii_of_nat 219) (String (ascii_of_N (Z.to_N (176 + digit))) EmptyString).

(** The loop [for num > 0] of [toPersianNumeral]; [fuel] bounds its
    iterations. *)
Fixpoint persianLoop (fuel : nat) (num : Z) (result : string) : string :=
  match fuel with
  | O => result
  | S fuel' =>
    if 0 <? num
    then persianLoop fuel' (num / 10) (persianDigit (num mod 10) ++ result)
    else result
  end.

(** The fuel is the bit length of [num], which is at least the number of
    its decimal digits. *)
Definition toPersianNumeral (num : Z) : string :=
  let result := persianLoop (S (Z.to_nat (Z.log2 num))) num "" in
  if String.eqb result "" then persianDigit 0 ++ persianDigit 0 else result.

(** [formatPersianTime] on [t.Hour()] and [t.Minute()]. *)
Definition formatPersianTime (hour minute : Z) : string :=
  toPersianNumeral hour ++ ":" ++ toPersianNumeral minute.

(** ** handler *)

(** What the handlers read of a request: the [token] query parameter
    ([""] when absent), the headers by canonical name, and the first JSON
    value of the body. *)
Record Request : Type := mkRequest {
  queryToken : string;
  headers : list (string * string);
  reqBody : Doc
}.

(** [r.Header.Get(name)]: the first value under the name, or [""]. *)
Fixpoint headerGet (name : string) (hs : list (string * string)) : string :=
  match hs with
  | [] => ""
  | (k, v) :: rest => if String.eqb k name then v else headerGet name rest
  end.

(** [strings.HasPrefix] and [strings.TrimPrefix]. *)
Fixpoint hasPrefix (s p : string) {struct p} : bool :=
  match p, s with
  | EmptyString, _ => true
  | String a p', String b s' => Ascii.eqb a b && hasPrefix s' p'
  | String _ _, EmptyString => false
  end.

Definition trimPrefix (s p : string) : string :=
  if hasPrefix s p then dropS (String.length p) s else s.

Inductive ResponseBody : Type :=
| PlainText (msg : string)
| UnauthorizedJSON
| NotificationFailed (err : GoError)
| NotificationSent.

Record Response : Type := mkResponse {
  statusCode : Z;
  respBody : ResponseBody
}.

(** The token a request presents to [AppTokenMiddleware]. *)
Definition providedToken (r : Request) : string :=
  let provided := if negb (String.eqb (queryToken r) "") then queryToken r else "" in
  if String.eqb provided "" then
    let auth := headerGet "Authorization" (headers r) in
    if hasPrefix auth "Bearer " then trimPrefix auth "Bearer " else provided
  else provided.

Definition AppTokenMiddleware (appToken : string) (next : Request -> M Response)
    (r : Request) : M Response :=
  if String.eqb appToken "" then next r
  else if negb (String.eqb (providedToken r) appToken)
       then ret (mkResponse 401 UnauthorizedJSON)
       else next r.






(** The text built from title and message. *)
Definition notificationText (title message : string) : string :=
  let text := "" in
  let text :=
    if negb (String.eqb title "")
    then (text ++ title) ++ (if negb (String.eqb message "") then ": " else "")
    else text in
  if negb (String.eqb message "") then text ++ message else text.



(** ** config *)

Record Config : Type := mkConfig {
  ServerPort : string;
  MizitoBaseURL : string;
  MizitoLoginURL : string;
  MizitoChatAPIURL : string;
  MizitoUsername : string;
  MizitoPassword : string;
  MizitoLoginCode : string;
  MizitoRegID : string;
  MizitoDialogID : string;
  MizitoFromUserID : string;
  JWTTokenFile : string;
  AppToken : string;
  LogLevel : string
}.

Definition DefaultConfig : Config :=
  mkConfig ":8080" "https://app.mizito.ir" "https://app.mizito.ir/capi/session/create"
           "https://app.mizito.ir/api/chat/send" "" "" "null" "null" "" ""
           "token.json" "" "info".

(** [if v := os.Getenv(name); v != "" { field = v }]. *)
Definition override (getenv : string -> string) (name default : string) : string :=
  if negb (String.eqb (getenv name) "") then getenv name else default.

Definition validate (c : Config) : option string :=
  if String.eqb (MizitoUsername c) "" then Some "MIZITO_USERNAME is required"
  else if String.eqb (MizitoPassword c) "" then Some "MIZITO_PASSWORD is required"
  else if String.eqb (MizitoDialogID c) "" then Some "MIZITO_DIALOG_ID is required"
  else if String.eqb (MizitoFromUserID c) "" then Some "MIZITO_FROM_USER_ID is required"
  else None.

(** [Load], on the environment as it is once the [.env] file has been read
    into it; [toLower] is [strings.ToLower]. *)
Definition Load (toLower : string -> string) (getenv : string -> string)
  : Config + string :=
  let d := DefaultConfig in
  let config :=
    mkConfig (override getenv "SERVER_PORT" (ServerPort d))
             (override getenv "MIZITO_BASE_URL" (MizitoBaseURL d))
             (override getenv "MIZITO_LOGIN_URL" (MizitoLoginURL d))
             (override getenv "MIZITO_CHAT_API_URL" (MizitoChatAPIURL d))
             (override getenv "MIZITO_USERNAME" (MizitoUsername d))
             (override getenv "MIZITO_PASSWORD" (MizitoPassword d))
             (override getenv "MIZITO_LOGIN_CODE" (MizitoLoginCode d))
             (override getenv "MIZITO_REG_ID" (MizitoRegID d))
             (override getenv "MIZITO_DIALOG_ID" (MizitoDialogID d))
             (override getenv "MIZITO_FROM_USER_ID" (MizitoFromUserID d))
             (override getenv "JWT_TOKEN_FILE" (JWTTokenFile d))
             (override getenv "APP_TOKEN" (AppToken d))
             (if negb (String.eqb (getenv "LOG_LEVEL") "")
              then toLower (getenv "LOG_LEVEL") else LogLevel d) in
  match validate config with
  | Some err => inr err
  | None => inl config
  end.

(** ** mizito/auth.go: the login request *)

(** An [interface{}] field that is [nil] unless the configured value is
    neither empty nor the text [null]. *)
Definition nullable (v : string) : json :=
  if negb (String.eqb v "") && negb (String.eqb v "null")
  then JString (toValidUTF8 v) else JNull.

(** [json.Marshal(loginReq)] in [Login]. *)
Definition loginRequestBody (c : Config) : json :=
  JObject [("username", JString (toValidUTF8 (MizitoUsername c)));
           ("password", JString (toValidUTF8 (MizitoPassword c)));
           ("loginCode", nullable (MizitoLoginCode c));
           ("regId", nullable (MizitoRegID c))].

(** * Vocabulary of the properties *)

(** [snd (m w)] after running [m], [fst (m w)] its result. *)
Definition after {A} (m : M A) (w : World) : World := snd (m w).
Definition result {A} (m : M A) (w : World) : A := fst (m w).


(** A store as a fresh process sees it: nothing in memory, the file as the
    previous process left it. *)
Definition freshProcess (w : World) : World := mkWorld None (file w) 0 0 0 [].

(** The text [Time.MarshalJSON] writes for [t], when it writes one, is
    accepted by [Time.UnmarshalJSON]. *)
Definition timeReadable (E : Env) (t : Z) : bool :=
  match timeText E t with
  | Some s => match parseTimeText E s with Some _ => true | None => false end
  | None => true
  end.

(** The refreshes in a trace: [os.Remove] is called by [ClearToken] only,
    and [ClearToken] by [RefreshToken] only, once per call. *)
Fixpoint refreshes (tr : list Event) : nat :=
  match tr with
  | [] => 0
  | EvRemove :: r => S (refreshes r)
  | _ :: r => refreshes r
  end.

Definition is401 (r : HttpResult) : bool :=
  match r with
  | Resp code _ => code =? 401
  | _ => false
  end.

(** A computation that sends nothing and refreshes nothing. *)
Definition quiet {A} (m : M A) : Prop :=
  forall w, sends (after m w) = sends w /\
            refreshes (trace (after m w)) = refreshes (trace w).

(** A computation under which the trace only grows. *)
Definition grows {A} (m : M A) : Prop :=
  forall w, exists tr, trace (after m w) = (trace w ++ tr)%list.


(** A store that holds the unexpired token [T0]. *)
Definition holdingT0 : World :=
  mkWorld (Some (mkTokenData "T0" "U0" (t0 + 24 * hour) t0)) Missing 0 0 0 [].

Definition body401 : HttpResult := Resp 401 Malformed.
Definition bodyTrue : HttpResult := Resp 200 (Tree (JBool true)).

Definition bodyRejected : Doc :=
  Tree (JObject [("status", JNumber "0"); ("message", JString "x")]).

(** ** The token file under concurrent use

    [LoadToken] and [SaveToken] both run under [m.Mutex.Lock()], released
    by the deferred [Unlock]. [ioutil.WriteFile] writes in place: it opens
    the file with [O_TRUNC] and then writes the bytes, so between the two
    the file is partial. Threads are interleaved one step at a time. A
    write that fails midway is the error path of [SaveToken] and is not
    part of this model. *)

Module Interleaving.

















End Interleaving.

(** ** Vocabulary of the further properties *)

(** The errors after which the loop goes on to the next iteration. *)
Definition isContinueError (e : GoError) : bool :=
  match e with
  | ErrRefreshOnRetry _ | ErrGetRefreshedToken _
  | ErrMessageRequestFailed | ErrReadMessageResponse => true
  | _ => false
  end.

(** A body that signals success. *)
Definition successBody (body : Doc) : Prop :=
  unmarshalBool body = Some true \/
  (unmarshalBool body = None /\
   exists r, unmarshalMessageResponse body = Some r /\ mrStatus r = 1).

(** What a run of the retry loop may end in. *)
Definition loopResultOK (E : Env) (N : nat) (p : option GoError * World) : Prop :=
  (fst p = None ->
   exists tr t k body,
     trace (snd p) = (tr ++ [EvSend t])%list /\ sends (snd p) = S k /\
     sendResp E k t = Resp 200 body /\ successBody body) /\
  (forall n x, fst p = Some (ErrFailedAfter n x) ->
     n = Z.of_nat N + 1 /\ exists e, x = Some e /\ isContinueError e = true) /\
  (forall c, fst p <> Some (ErrGetJWTToken c)).


(** The number a string of Persian digits denotes, with the weight
    [10 ^ digits]; [None] when a byte pair is not a Persian digit. *)
Fixpoint persianValue (s : string) : option (Z * Z) :=
  match s with
  | EmptyString => Some (0, 1)
  | String a (String b r) =>
    if (byteZ a =? 219) && inRange 176 185 b then
      match persianValue r with
      | Some (v, wt) => Some ((byteZ b - 176) * wt + v, 10 * wt)
      | None => None
      end
    else None
  | String _ EmptyString => None
  end.

(** The two sides of the first colon. *)
Fixpoint splitColon (s : string) : option (string * string) :=
  match s with
  | EmptyString => None
  | String c r =>
    if Ascii.eqb c ":" then Some (EmptyString, r)
    else match splitColon r with
         | Some (a, b) => Some (String c a, b)
         | None => None
         end
  end.

Definition parsePersianTime (s : string) : option (Z * Z) :=
  match splitColon s with
  | Some (a, b) =>
    match persianValue a, persianValue b with
    | Some (h, _), Some (m, _) => Some (h, m)
    | _, _ => None
    end
  | None => None
  end.

Fixpoint allASCII (s : string) : bool :=
  match s with
  | EmptyString => true
  | String c r => (byteZ c <? 128) && allASCII r
  end.

Definition gotifyDiskFull : Doc :=
  Tree (JObject [("title", JString "Disk"); ("message", JString "full");
                 ("priority", JNumber "5")]).

Definition exampleEnviron (name : string) : string :=
  if String.eqb name "MIZITO_USERNAME" then "user@example.com"
  else if String.eqb name "MIZITO_PASSWORD" then "secret"
  else if String.eqb name "MIZITO_DIALOG_ID" then "d1"
  else if String.eqb name "MIZITO_FROM_USER_ID" then "u1"
  else if String.eqb name "MIZITO_LOGIN_CODE" then "null"
  else "".

Definition exampleConfig : Config :=
  Eval cbv in
    match Load (fun s => s) exampleEnviron with
    | inl c => c
    | inr _ => DefaultConfig
    end.

(** * Properties *)

Ltac run :=
  cbv [LoadToken SaveToken GetToken HasValidToken IsTokenExpired ClearToken
       EnsureValidToken RefreshToken AuthGetToken Login doLogin doSend
       bind ret emit setTokenData setFile getTokenData getFile timeNow];
  cbn [fst snd tokenData file ticks logins sends trace].

(** ** The token store *)

Lemma takeS_dropS n s : (takeS n s ++ dropS n s)%string = s.
Proof.
  revert s; induction n as [|n IH]; intros [|c r]; cbn; try reflexivity.
  now rewrite IH.
Qed.

Lemma coerce_valid fuel s : validFrom fuel s = true -> coerceUTF8 fuel s = s.
Proof.
  revert s; induction fuel as [|fuel IH]; intros s H.
  - destruct s; [reflexivity | discriminate].
  - destruct s as [|c r]; [reflexivity|].
    cbn [validFrom coerceUTF8] in *.
    destruct (runeLen (String c r)) as [|n]; [discriminate|].
    rewrite (IH _ H). apply takeS_dropS.
Qed.

Lemma toValidUTF8_valid s : validUTF8 s = true -> toValidUTF8 s = s.
Proof. apply coerce_valid. Qed.

Lemma GetToken_reads_record (w w' : World) :
  tokenData w = tokenData w' -> result GetToken w = result GetToken w'.
Proof.
  unfold result; run. intros ->.
  destruct (tokenData w') as [td|]; [|reflexivity].
  destruct (String.eqb (Token td) ""); reflexivity.
Qed.

Lemma HasValidToken_reads_record (E : Env) (w w' : World) :
  tokenData w = tokenData w' -> ticks w = ticks w' ->
  result (HasValidToken E) w = result (HasValidToken E) w'.
Proof.
  unfold result; run. intros -> Hk.
  destruct (tokenData w') as [td|]; [|reflexivity].
  destruct (String.eqb (Token td) ""); cbn; rewrite ?Hk; reflexivity.
Qed.

Section Store.

Variable E : Env.

(** C9. A load that finds no file returns nil, and a load that finds a file
    it cannot parse returns an error; both leave the in-memory record as it
    was, so a token held before is still handed out. *)
Theorem LoadToken_failure_keeps_record (w : World) :
  (file w = Missing ->
     result (LoadToken E) w = None /\
     tokenData (after (LoadToken E) w) = tokenData w) /\
  (forall d, file w = Present d -> unmarshalTokenData E d = None ->
     result (LoadToken E) w = Some ErrParseTokenData /\
     tokenData (after (LoadToken E) w) = tokenData w /\
     result (GetToken) (after (LoadToken E) w) = result (GetToken) w).
Proof.
  unfold after, result; split.
  - intros Hf. run. rewrite Hf. cbn. auto.
  - intros d Hf Hd. repeat split; [| | apply GetToken_reads_record];
      run; rewrite Hf, Hd; reflexivity.
Qed.

(** C10. When removing the file fails for a reason other than its absence,
    [ClearToken] returns an error and the record stays, so [GetToken] and
    [HasValidToken] answer as before; the record is dropped only when the
    removal succeeds or the file was not there. *)
Theorem ClearToken_error_keeps_record (w : World) :
  (file w <> Missing -> removeFails E = true ->
     result (ClearToken E) w = Some ErrRemoveTokenFile /\
     tokenData (after (ClearToken E) w) = tokenData w /\
     file (after (ClearToken E) w) = file w /\
     result GetToken (after (ClearToken E) w) = result GetToken w /\
     result (HasValidToken E) (after (ClearToken E) w) = result (HasValidToken E) w) /\
  (file w = Missing \/ removeFails E = false ->
     result (ClearToken E) w = None /\
     tokenData (after (ClearToken E) w) = None /\
     file (after (ClearToken E) w) = Missing) /\
  (tokenData (after (ClearToken E) w) <> tokenData w ->
     result (ClearToken E) w = None /\
     (file w = Missing \/ removeFails E = false)).
Proof.
  unfold after, result; split; [|split].
  - intros Hf Hr. repeat split;
      try apply GetToken_reads_record; try apply HasValidToken_reads_record;
      run; destruct (file w); try congruence; rewrite Hr; reflexivity.
  - intros [Hf | Hr]; run; [rewrite Hf; cbn; auto |].
    destruct (file w); try rewrite Hr; cbn; auto.
  - run. destruct (file w); cbn; auto;
      destruct (removeFails E); cbn; auto; congruence.
Qed.

(** C8. With a record in memory whose token is non-empty and not yet
    expired, [EnsureValidToken] returns nil after reading the clock once:
    no file is touched, no endpoint is called, the store is as before. *)
Theorem EnsureValidToken_valid_no_io (w : World) (td : TokenData) :
  tokenData w = Some td ->
  Token td <> "" ->
  now E (ticks w) < ExpiresAt td ->
  result (EnsureValidToken E) w = None /\
  trace (after (EnsureValidToken E) w) = trace w /\
  tokenData (after (EnsureValidToken E) w) = tokenData w /\
  file (after (EnsureValidToken E) w) = file w /\
  logins (after (EnsureValidToken E) w) = logins w /\
  sends (after (EnsureValidToken E) w) = sends w.
Proof.
  intros Ht Hne Hlt. unfold after, result. run. rewrite Ht.
  destruct (String.eqb_spec (Token td) ""); [contradiction|].
  cbn. apply Z.ltb_lt in Hlt. rewrite Hlt. cbn. repeat split; assumption.
Qed.

(** What a successful [SaveToken] leaves behind. *)
Lemma SaveToken_ok (w w' : World) (token uid : string) :
  SaveToken E token uid w = (None, w') ->
  exists e u,
    timeText E (now E (ticks w) + 24 * hour) = Some e /\
    timeText E (now E (S (ticks w))) = Some u /\
    ticks w' = S (S (ticks w)) /\
    tokenData w' = Some (mkTokenData token uid (now E (ticks w) + 24 * hour)
                                     (now E (S (ticks w)))) /\
    file w' = Present (Tree (JObject
      [("token", JString (toValidUTF8 token));
       ("last_login_uid", JString (toValidUTF8 uid));
       ("expires_at", JString e); ("updated_at", JString u)])).
Proof.
  run. unfold marshalTokenData. cbn [ExpiresAt UpdatedAt Token LastLoginUID].
  destruct (timeText E (now E (ticks w) + 24 * hour)) as [e|]; [|discriminate].
  destruct (timeText E (now E (S (ticks w)))) as [u|]; [|discriminate].
  intros H. exists e, u.
  destruct (tokenDirIsDot E); cbn in H;
    [| destruct (mkdirFails E); cbn in H; [discriminate|]];
    (destruct (writeFault E); cbn in H; [discriminate|]);
    injection H as <-; cbn; auto 6.
Qed.


(** C7, as the code has it. After a [SaveToken] that returned nil, for a
    token that is valid UTF-8 and instants whose text form reads back, a
    [LoadToken] in a fresh process returns nil and holds the token that was
    written. *)
Theorem save_load_roundtrip (w w' : World) (token uid : string) :
  SaveToken E token uid w = (None, w') ->
  validUTF8 token = true ->
  timeReadable E (now E (ticks w) + 24 * hour) = true ->
  timeReadable E (now E (S (ticks w))) = true ->
  result (LoadToken E) (freshProcess w') = None /\
  option_map Token (tokenData (after (LoadToken E) (freshProcess w'))) = Some token.
Proof.
  intros Hs Hv He Hu.
  destruct (SaveToken_ok _ _ _ _ Hs) as (e & u & Te & Tu & _ & _ & Hf).
  unfold timeReadable in He, Hu. rewrite Te in He. rewrite Tu in Hu.
  destruct (parseTimeText E e) as [pe|] eqn:Pe; [|discriminate].
  destruct (parseTimeText E u) as [pu|] eqn:Pu; [|discriminate].
  unfold after, result, freshProcess. run. rewrite Hf.
  cbn. rewrite Pe, Pu. cbn. rewrite (toValidUTF8_valid _ Hv). auto.
Qed.

End Store.


(** The same through [Login], and through [LoadToken] of the file [{}]. *)
Example Login_without_token_breaks_invariant :
  let E := quietEnv t0 (fun _ => Resp 200 (Tree (JObject [("status", JNumber "1")])))
                    (fun _ _ => TransportErr) in
  result (Login E) emptyWorld = None /\
  option_map Token (tokenData (after (Login E) emptyWorld)) = Some "".
Proof. vm_compute. auto. Qed.

Example LoadToken_empty_object_breaks_invariant :
  let E := quietEnv t0 (fun _ => TransportErr) (fun _ _ => TransportErr) in
  let w := mkWorld None (Present (Tree (JObject []))) 0 0 0 [] in
  result (LoadToken E) w = None /\
  tokenData (after (LoadToken E) w) = Some zeroTokenData.
Proof. vm_compute. auto. Qed.


(** C7 fails as stated: [json.Marshal] replaces a byte that is not UTF-8
    by U+FFFD, so the token [\xff] comes back as [\xef\xbf\xbd]. *)
Lemma invalid_utf8_token_not_restored :
  let E := quietEnv t0 (fun _ => TransportErr) (fun _ _ => TransportErr) in
  let bad := String (ascii_of_nat 255) EmptyString in
  let w' := after (SaveToken E bad "U1") emptyWorld in
  result (SaveToken E bad "U1") emptyWorld = None /\
  result (LoadToken E) (freshProcess w') = None /\
  option_map Token (tokenData (after (LoadToken E) (freshProcess w')))
    = Some replacementRune /\
  replacementRune <> bad.
Proof. vm_compute. repeat split. discriminate. Qed.

Lemma save_load_roundtrip_witness :
  let E := quietEnv t0 (fun _ => TransportErr) (fun _ _ => TransportErr) in
  let w' := after (SaveToken E "T1" "U1") emptyWorld in
  result (LoadToken E) (freshProcess w') = None /\
  option_map Token (tokenData (after (LoadToken E) (freshProcess w'))) = Some "T1".
Proof.
  intros E w'.
  apply (save_load_roundtrip E emptyWorld w' "T1" "U1"); vm_compute; reflexivity.
Defined.

Lemma LoadToken_failure_keeps_record_witness :
  let E := quietEnv t0 (fun _ => TransportErr) (fun _ _ => TransportErr) in
  let held := Some (mkTokenData "T1" "U1" (t0 + 24 * hour) t0) in
  let w1 := mkWorld held Missing 0 0 0 [] in
  let w2 := mkWorld held (Present Malformed) 0 0 0 [] in
  (result (LoadToken E) w1 = None /\ tokenData (after (LoadToken E) w1) = held) /\
  (result (LoadToken E) w2 = Some ErrParseTokenData /\
   tokenData (after (LoadToken E) w2) = held /\
   result GetToken (after (LoadToken E) w2) = ("T1", true)).
Proof.
  intros E held w1 w2. split.
  - apply (proj1 (LoadToken_failure_keeps_record E w1)). reflexivity.
  - apply (proj2 (LoadToken_failure_keeps_record E w2) Malformed); reflexivity.
Defined.

Lemma ClearToken_error_keeps_record_witness :
  let E := mkEnv (fun n => t0) (fun _ => TransportErr) (fun _ _ => TransportErr)
                 true false None true UTC.timeText UTC.parseTimeText in
  let held := Some (mkTokenData "T1" "U1" (t0 + 24 * hour) t0) in
  let w := mkWorld held (Present Malformed) 0 0 0 [] in
  result (ClearToken E) w = Some ErrRemoveTokenFile /\
  tokenData (after (ClearToken E) w) = held.
Proof.
  intros E held w.
  destruct (proj1 (ClearToken_error_keeps_record E w)) as (H1 & H2 & _).
  - discriminate.
  - reflexivity.
  - split; [exact H1 | exact H2].
Defined.

Lemma EnsureValidToken_valid_no_io_witness :
  let E := quietEnv t0 (fun _ => TransportErr) (fun _ _ => TransportErr) in
  let td := mkTokenData "T1" "U1" (t0 + 24 * hour) t0 in
  let w := mkWorld (Some td) Missing 0 0 0 [] in
  result (EnsureValidToken E) w = None /\ trace (after (EnsureValidToken E) w) = [].
Proof.
  intros E td w.
  destruct (EnsureValidToken_valid_no_io E w td) as (H1 & H2 & _).
  - reflexivity.
  - discriminate.
  - vm_compute. reflexivity.
  - split; [exact H1 | exact H2].
Defined.

(** ** Delivery *)

Lemma refreshes_app (a b : list Event) :
  refreshes (a ++ b) = (refreshes a + refreshes b)%nat.
Proof.
  induction a as [|e a IH]; [reflexivity|].
  destruct e; cbn; rewrite IH; reflexivity.
Qed.

Lemma quiet_ret {A} (a : A) : quiet (ret a).
Proof. intros w; split; reflexivity. Qed.

Lemma quiet_bind {A B} (m : M A) (k : A -> M B) :
  quiet m -> (forall a, quiet (k a)) -> quiet (bind m k).
Proof.
  unfold quiet, after, bind. intros Hm Hk w.
  specialize (Hm w). destruct (m w) as [a w1]. cbn in Hm.
  specialize (Hk a w1). destruct (k a w1) as [b w2]. cbn in *.
  destruct Hm, Hk; split; congruence.
Qed.

Ltac quiet_prim :=
  intros w; unfold after; run; rewrite ?refreshes_app; cbn; split; lia.

Lemma quiet_getTokenData : quiet getTokenData.
Proof. quiet_prim. Qed.

Lemma quiet_getFile : quiet getFile.
Proof. quiet_prim. Qed.

Lemma quiet_setTokenData t : quiet (setTokenData t).
Proof. quiet_prim. Qed.

Lemma quiet_setFile f : quiet (setFile f).
Proof. quiet_prim. Qed.

Lemma quiet_emit e : e <> EvRemove -> (forall t, e <> EvSend t) -> quiet (emit e).
Proof.
  intros H1 H2 w; unfold after; run; rewrite refreshes_app.
  destruct e; try congruence; cbn; split; lia.
Qed.

Create HintDb quiet.

#[local] Hint Resolve quiet_ret quiet_getTokenData quiet_getFile quiet_setTokenData
  quiet_setFile : quiet.

Ltac quiet_step :=
  first
    [ apply quiet_ret
    | apply quiet_bind; [| intros ?]
    | apply quiet_emit; [discriminate | intros ?; discriminate]
    | solve [auto with quiet]
    | match goal with
      | |- quiet (match ?x with _ => _ end) => destruct x
      end ].

Lemma grows_ret {A} (a : A) : grows (ret a).
Proof. intros w; exists []. cbn. now rewrite app_nil_r. Qed.

Lemma grows_bind {A B} (m : M A) (k : A -> M B) :
  grows m -> (forall a, grows (k a)) -> grows (bind m k).
Proof.
  unfold grows, after, bind. intros Hm Hk w.
  destruct (Hm w) as [tr1 H1]. destruct (m w) as [a w1]. cbn in H1.
  destruct (Hk a w1) as [tr2 H2]. destruct (k a w1) as [b w2]. cbn in *.
  exists (tr1 ++ tr2)%list. rewrite H2, H1. now rewrite app_assoc.
Qed.

Lemma grows_emit e : grows (emit e).
Proof. intros w; exists [e]. reflexivity. Qed.

Lemma grows_same {A} (m : M A) :
  (forall w, trace (after m w) = trace w) -> grows m.
Proof. intros H w; exists []. rewrite H. now rewrite app_nil_r. Qed.

Ltac grows_step :=
  first
    [ apply grows_ret
    | apply grows_emit
    | apply grows_same; reflexivity
    | apply grows_bind; [| intros ?]
    | match goal with
      | |- grows (match ?x with _ => _ end) => destruct x
      end ].

Section Delivery.

Variable E : Env.

Lemma quiet_timeNow : quiet (timeNow E).
Proof. quiet_prim. Qed.

Lemma quiet_GetToken : quiet GetToken.
Proof. unfold GetToken. repeat quiet_step. Qed.

Lemma quiet_HasValidToken : quiet (HasValidToken E).
Proof. unfold HasValidToken. repeat (apply quiet_timeNow || quiet_step). Qed.

Lemma quiet_LoadToken : quiet (LoadToken E).
Proof. unfold LoadToken. repeat quiet_step. Qed.

Lemma quiet_SaveToken token uid : quiet (SaveToken E token uid).
Proof. unfold SaveToken. repeat (apply quiet_timeNow || quiet_step || cbv zeta). Qed.

Lemma quiet_doLogin : quiet (doLogin E).
Proof. quiet_prim. Qed.

Lemma quiet_Login : quiet (Login E).
Proof.
  unfold Login. repeat (apply quiet_doLogin || apply quiet_SaveToken || quiet_step).
Qed.

Lemma quiet_EnsureValidToken : quiet (EnsureValidToken E).
Proof.
  unfold EnsureValidToken.
  repeat (apply quiet_HasValidToken || apply quiet_LoadToken
          || apply quiet_Login || quiet_step).
Qed.

Lemma quiet_AuthGetToken : quiet (AuthGetToken E).
Proof.
  unfold AuthGetToken.
  repeat (apply quiet_EnsureValidToken || apply quiet_GetToken || quiet_step).
Qed.

Lemma RefreshToken_counts (w : World) :
  sends (after (RefreshToken E) w) = sends w /\
  refreshes (trace (after (RefreshToken E) w)) = S (refreshes (trace w)).
Proof.
  unfold RefreshToken, after, bind.
  destruct (ClearToken E w) as [c w1] eqn:Hc.
  assert (sends w1 = sends w /\ refreshes (trace w1) = S (refreshes (trace w))) as [H1 H2].
  { revert Hc. run. destruct (file w); try destruct (removeFails E);
      intros H; injection H as _ <-; cbn; rewrite refreshes_app; cbn; split; lia. }
  destruct (quiet_Login w1) as [H3 H4]. unfold after in *. split; congruence.
Qed.

(** The head of an iteration sends nothing; on a retry it refreshes exactly
    once, whether or not the refresh succeeds. *)
Lemma retryPrelude_counts (attempt : nat) (tok : string) (w : World) :
  sends (after (retryPrelude E attempt tok) w) = sends w /\
  refreshes (trace (after (retryPrelude E attempt tok) w))
    = ((if (0 <? attempt)%nat then 1 else 0) + refreshes (trace w))%nat.
Proof.
  unfold retryPrelude, after, bind.
  destruct (0 <? attempt)%nat; [|split; reflexivity].
  destruct (RefreshToken_counts w) as [H1 H2]. unfold after in *.
  destruct (RefreshToken E w) as [[err|] w1]; cbn in *; [split; assumption|].
  destruct (quiet_AuthGetToken w1) as [H3 H4]. unfold after in *.
  destruct (AuthGetToken E w1) as [[t|err] w2]; cbn in *; split; congruence.
Qed.

Lemma doSend_spec (tok : string) (w : World) :
  doSend E tok w =
    (sendResp E (sends w) tok,
     mkWorld (tokenData w) (file w) (ticks w) (logins w) (S (sends w))
             (trace w ++ [EvSend tok])).
Proof. reflexivity. Qed.

(** One unfolding of the loop. *)
Lemma retryLoop_step (N rest : nat) (tok : string) (lastErr : option GoError) (w : World) :
  retryLoop E N (S rest) tok lastErr w =
    let (pre, w1) := retryPrelude E (N - rest) tok w in
    match pre with
    | inr err => retryLoop E N rest tok (Some err) w1
    | inl t =>
      let w2 := snd (doSend E t w1) in
      match sendResp E (sends w1) t with
      | TransportErr => retryLoop E N rest t (Some ErrMessageRequestFailed) w2
      | BodyReadErr _ => retryLoop E N rest t (Some ErrReadMessageResponse) w2
      | Resp code body =>
        if code =? 401 then
          if (N - rest <? N)%nat then retryLoop E N rest t lastErr w2
          else (Some (ErrUnauthorizedAfter (Z.of_nat N + 1)), w2)
        else if negb (code =? 200) then (Some (ErrSendHTTPStatus code), w2)
        else
          match unmarshalBool body with
          | Some true => (None, w2)
          | Some false => (Some ErrFalseResponse, w2)
          | None =>
            match unmarshalMessageResponse body with
            | Some msgResp =>
              if negb (mrStatus msgResp =? 1)
              then (Some (ErrSendStatus (mrStatus msgResp) (mrMessage msgResp)), w2)
              else (None, w2)
            | None => (Some ErrUnexpectedFormat, w2)
            end
          end
      end
    end.
Proof.
  cbn [retryLoop]. unfold bind at 1.
  destruct (retryPrelude E (N - rest) tok w) as [[t|err] w1]; [|reflexivity].
  unfold bind. rewrite doSend_spec. cbn [snd].
  destruct (sendResp E (sends w1) t) as [| |code body]; try reflexivity.
  destruct (code =? 401); [destruct (N - rest <? N)%nat; reflexivity|].
  destruct (negb (code =? 200)); [reflexivity|].
  destruct (unmarshalBool body) as [[|]|]; try reflexivity.
  destruct (unmarshalMessageResponse body) as [m|]; [|reflexivity].
  destruct (negb (mrStatus m =? 1)); reflexivity.
Qed.

(** An iteration sends at most once. *)
Lemma retryLoop_sends (N rest : nat) :
  forall tok lastErr w,
    (sends (after (retryLoop E N rest tok lastErr) w) <= sends w + rest)%nat.
Proof.
  induction rest as [|rest IH]; intros tok lastErr w.
  - cbn. lia.
  - unfold after. rewrite retryLoop_step.
    destruct (retryPrelude_counts (N - rest) tok w) as [Hs _]. unfold after in Hs.
    destruct (retryPrelude E (N - rest) tok w) as [[t|err] w1]; cbn [snd] in Hs.
    + rewrite doSend_spec. cbn [snd].
      repeat match goal with
      | |- context [match ?x with _ => _ end] => destruct x
      end; cbn [snd sends];
      try match goal with
      | |- context [retryLoop E N rest ?a ?b ?c] =>
        specialize (IH a b c); unfold after in IH; cbn [sends] in IH
      end; lia.
    + specialize (IH tok (Some err) w1). unfold after in IH. lia.
Qed.

(** While every answer is 401, a run that sends in each of its
    iterations ends on the send of the last one. *)
Lemma retryLoop_all_401 (N rest : nat) :
  forall tok lastErr w,
    (rest <= N)%nat ->
    (forall k t, (sends w <= k < sends w + S rest)%nat -> is401 (sendResp E k t) = true) ->
    sends (after (retryLoop E N (S rest) tok lastErr) w) = (sends w + S rest)%nat ->
    result (retryLoop E N (S rest) tok lastErr) w
      = Some (ErrUnauthorizedAfter (Z.of_nat N + 1)) /\
    exists tr t, trace (after (retryLoop E N (S rest) tok lastErr) w) = (tr ++ [EvSend t])%list.
Proof.
  induction rest as [|rest IH]; intros tok lastErr w Hle H401; unfold after, result;
    rewrite retryLoop_step.
  - destruct (retryPrelude_counts (N - 0) tok w) as [Hs _]; unfold after in Hs.
    destruct (retryPrelude E (N - 0) tok w) as [[t|err] w1]; cbn [snd] in *.
    + rewrite doSend_spec. cbn [snd].
      pose proof (H401 (sends w1) t ltac:(lia)) as H.
      destruct (sendResp E (sends w1) t) as [| |code body]; try discriminate.
      cbn in H. rewrite H.
      replace (N - 0 <? N)%nat with false by (symmetry; apply Nat.ltb_ge; lia).
      cbn. intros _. split; [reflexivity|]. eauto.
    + cbn. intros H. lia.
  - destruct (retryPrelude_counts (N - S rest) tok w) as [Hs _]; unfold after in Hs.
    destruct (retryPrelude E (N - S rest) tok w) as [[t|err] w1]; cbn [snd] in *.
    + rewrite doSend_spec. cbn [snd].
      pose proof (H401 (sends w1) t ltac:(lia)) as H.
      destruct (sendResp E (sends w1) t) as [| |code body]; try discriminate.
      cbn in H. rewrite H.
      replace (N - S rest <? N)%nat with true by (symmetry; apply Nat.ltb_lt; lia).
      intros Hsent.
      apply (IH t lastErr); [lia | | ].
      * cbn [sends]. intros k t' Hk. apply H401. lia.
      * unfold after. cbn [sends]. lia.
    + intros Hsent.
      pose proof (retryLoop_sends N (S rest) tok (Some err) w1) as Hb.
      unfold after in Hb. lia.
Qed.

(** C1. When the send endpoint answers 401 to each of the three attempts
    of a delivery, [SendMessage] returns the error "unauthorized after 3
    retries", and the third send is the last thing it does: no refresh, no
    login and no file access follow. *)
Theorem SendMessage_unauthorized_exhausted (text : string) (w : World) :
  (forall k t, (sends w <= k < sends w + 3)%nat -> is401 (sendResp E k t) = true) ->
  sends (after (SendMessage E text) w) = (sends w + 3)%nat ->
  result (SendMessage E text) w = Some (ErrUnauthorizedAfter 3) /\
  exists tr t, trace (after (SendMessage E text) w) = (tr ++ [EvSend t])%list.
Proof.
  intros H401. unfold SendMessage, after, result, bind.
  destruct (quiet_AuthGetToken w) as [Hs _]. unfold after in Hs.
  destruct (AuthGetToken E w) as [[tok|err] w1]; cbn [snd fst] in *.
  - unfold sendMessageWithRetry. intros Hsent.
    apply (retryLoop_all_401 2 2 tok None); [lia | | ].
    + cbn [timeNow snd sends]. intros k t Hk. apply H401. lia.
    + unfold after. cbn [timeNow snd sends] in *. lia.
  - cbn. intros H. lia.
Qed.

Lemma grows_SaveToken token uid : grows (SaveToken E token uid).
Proof. unfold SaveToken. repeat (grows_step || cbv zeta). Qed.

Lemma grows_Login : grows (Login E).
Proof.
  unfold Login, doLogin. repeat (apply grows_SaveToken || grows_step).
Qed.

Lemma grows_ClearToken : grows (ClearToken E).
Proof. unfold ClearToken. repeat grows_step. Qed.

Lemma grows_LoadToken : grows (LoadToken E).
Proof. unfold LoadToken. repeat grows_step. Qed.

Lemma grows_HasValidToken : grows (HasValidToken E).
Proof. unfold HasValidToken. repeat grows_step. Qed.

Lemma grows_AuthGetToken : grows (AuthGetToken E).
Proof.
  unfold AuthGetToken, EnsureValidToken, GetToken.
  repeat (apply grows_HasValidToken || apply grows_LoadToken || apply grows_Login
          || grows_step).
Qed.

Lemma grows_retryPrelude attempt tok : grows (retryPrelude E attempt tok).
Proof.
  unfold retryPrelude, RefreshToken.
  repeat (apply grows_ClearToken || apply grows_Login || apply grows_AuthGetToken
          || grows_step).
Qed.

Lemma grows_doSend tok : grows (doSend E tok).
Proof. unfold doSend. repeat grows_step. Qed.

Lemma grows_retryLoop (N rest : nat) :
  forall tok lastErr, grows (retryLoop E N rest tok lastErr).
Proof.
  induction rest as [|rest IH]; intros tok lastErr; cbn [retryLoop].
  - apply grows_ret.
  - repeat (apply grows_retryPrelude || apply grows_doSend || apply IH || grows_step).
Qed.

Lemma GetToken_pure (w : World) : GetToken w = (result GetToken w, w).
Proof.
  unfold result. run. destruct (tokenData w) as [td|]; [|reflexivity].
  destruct (String.eqb (Token td) ""); reflexivity.
Qed.





(** What follows the head of an iteration only adds to the trace, and
    when the head yields a token the first thing added is the send that
    carries it. *)
Lemma retryLoop_after_prelude (N rest : nat) (tok : string) (lastErr : option GoError)
    (w : World) :
  exists tr,
    trace (after (retryLoop E N (S rest) tok lastErr) w)
      = (trace (after (retryPrelude E (N - rest) tok) w) ++ tr)%list /\
    forall t, result (retryPrelude E (N - rest) tok) w = inl t ->
              exists tr', tr = EvSend t :: tr'.
Proof.
  unfold after, result. rewrite retryLoop_step.
  destruct (retryPrelude E (N - rest) tok w) as [[t|err] w1]; cbn [fst snd].
  - rewrite doSend_spec. cbn [snd].
    set (w2 := mkWorld (tokenData w1) (file w1) (ticks w1) (logins w1)
                       (S (sends w1)) (trace w1 ++ [EvSend t])).
    assert (forall t0 le (r : option GoError * World),
              r = retryLoop E N rest t0 le w2 \/ snd r = w2 ->
              exists tr', trace (snd r) = (trace w1 ++ EvSend t :: tr')%list) as H.
    { intros t0 le r [-> | ->].
      - destruct (grows_retryLoop N rest t0 le w2) as [tr Htr].
        unfold after in Htr. rewrite Htr. cbn [trace w2]. exists tr.
        now rewrite <- app_assoc.
      - exists []. reflexivity. }
    match goal with
    | |- exists tr, trace (snd ?r) = _ /\ _ =>
      assert (exists tr', trace (snd r) = (trace w1 ++ EvSend t :: tr')%list) as [tr' Htr]
    end.
    { repeat match goal with
      | |- context [match ?x with _ => _ end] => destruct x
      end;
      first [ eapply H; left; reflexivity
            | eapply (H tok None); right; reflexivity ]. }
    exists (EvSend t :: tr'). split; [exact Htr|].
    intros t0 Ht0. injection Ht0 as <-. eauto.
  - destruct (grows_retryLoop N rest tok (Some err) w1) as [tr Htr].
    exists tr. split; [exact Htr | discriminate].
Qed.

Lemma retryPrelude_starts_with_refresh (attempt : nat) (tok : string) (w : World) :
  (0 < attempt)%nat ->
  exists tr, trace (after (retryPrelude E attempt tok) w) = (trace w ++ EvRemove :: tr)%list.
Proof.
  intros Ha. unfold retryPrelude.
  replace (0 <? attempt)%nat with true by (symmetry; apply Nat.ltb_lt; exact Ha).
  unfold RefreshToken, ClearToken.
  match goal with
  | |- context [after (bind (bind (bind (emit EvRemove) ?k1) ?k2) ?k3) w] =>
    assert (grows (bind (bind (k1 tt) k2) k3)) as Hg
  end.
  { repeat (apply grows_Login || apply grows_AuthGetToken || grows_step). }
  destruct (Hg (after (emit EvRemove) w)) as [tr Htr].
  exists tr. unfold after, bind in *. cbn [emit fst snd trace] in *.
  rewrite Htr. now rewrite <- app_assoc.
Qed.


(** C3, as the code has it. A send that fails in transport is not
    terminal: the loop records it as the last error and goes on. With no
    iteration left the delivery returns "failed after N+1 attempts" around
    that error; otherwise the next iteration starts with a refresh. *)
Theorem transport_failure_is_retried (N rest : nat) (tok : string)
    (lastErr : option GoError) (w : World) (t : string) :
  result (retryPrelude E (N - rest) tok) w = inl t ->
  sendResp E (sends (after (retryPrelude E (N - rest) tok) w)) t = TransportErr ->
  let w2 := after (doSend E t) (after (retryPrelude E (N - rest) tok) w) in
  retryLoop E N (S rest) tok lastErr w
    = retryLoop E N rest t (Some ErrMessageRequestFailed) w2 /\
  (rest = 0%nat ->
     retryLoop E N (S rest) tok lastErr w
       = (Some (ErrFailedAfter (Z.of_nat N + 1) (Some ErrMessageRequestFailed)), w2)) /\
  (forall r, rest = S r -> (r < N)%nat ->
     exists tr, trace (after (retryLoop E N (S rest) tok lastErr) w)
                = (trace w2 ++ EvRemove :: tr)%list).
Proof.
  intros Hpre Hresp w2.
  assert (retryLoop E N (S rest) tok lastErr w
            = retryLoop E N rest t (Some ErrMessageRequestFailed) w2) as Heq.
  { subst w2. revert Hpre Hresp. unfold result, after. rewrite retryLoop_step.
    destruct (retryPrelude E (N - rest) tok w) as [[t0|e] w1]; cbn [fst snd];
      [|discriminate].
    intros H. injection H as ->. intros ->. reflexivity. }
  split; [exact Heq|]. split.
  - intros ->. rewrite Heq. reflexivity.
  - intros r -> Hr. unfold after at 1. rewrite Heq.
    destruct (retryLoop_after_prelude N r t (Some ErrMessageRequestFailed) w2)
      as (tr & Htr & _).
    destruct (retryPrelude_starts_with_refresh (N - r) t w2 ltac:(lia)) as [tr0 Htr0].
    unfold after in Htr at 1. rewrite Htr, Htr0. rewrite <- app_assoc. cbn. eauto.
Qed.


End Delivery.

(** ** Delivery: concrete runs *)

Lemma SendMessage_unauthorized_exhausted_witness :
  let E := quietEnv t0 (fun _ => loginOK "T1" "U1") (fun _ _ => body401) in
  result (SendMessage E "hello") holdingT0 = Some (ErrUnauthorizedAfter 3) /\
  exists tr t, trace (after (SendMessage E "hello") holdingT0) = (tr ++ [EvSend t])%list.
Proof.
  intros E. apply (SendMessage_unauthorized_exhausted E "hello" holdingT0).
  - intros k t _. reflexivity.
  - vm_compute. reflexivity.
Defined.



(** C3 fails as stated: the first send fails in transport, the loop
    refreshes the token and sends again, and the delivery returns nil. *)
Lemma transport_error_then_success :
  let E := quietEnv t0 (fun n => loginOK "T1" "U1")
             (fun n _ => match n with O => TransportErr | _ => bodyTrue end) in
  result (SendMessage E "hello") holdingT0 = None /\
  trace (after (SendMessage E "hello") holdingT0)
    = [EvSend "T0"; EvRemove; EvLogin; EvWriteFile; EvSend "T1"].
Proof. vm_compute. split; reflexivity. Qed.

Lemma transport_failure_is_retried_witness :
  let E := quietEnv t0 (fun n => loginOK "T1" "U1") (fun n _ => TransportErr) in
  retryLoop E 2 1 "T0" None holdingT0
    = (Some (ErrFailedAfter 3 (Some ErrMessageRequestFailed)),
       after (doSend E "T1") (after (retryPrelude E 2 "T0") holdingT0)).
Proof.
  intros E.
  refine (proj1 (proj2 (transport_failure_is_retried E 2 0 "T0" None holdingT0 "T1" _ _))
            eq_refl); vm_compute; reflexivity.
Defined.


(** The shapes of a 200 body named by the specification. *)
Example send_bodies :
  let run body := result (sendMessageWithRetry
                    (quietEnv t0 (fun _ => TransportErr) (fun _ _ => Resp 200 body)) "T0" 2)
                    holdingT0 in
  run (Tree (JBool true)) = None /\
  run (Tree (JObject [("status", JNumber "1")])) = None /\
  run bodyRejected = Some (ErrSendStatus 0 "x") /\
  run (Tree (JBool false)) = Some ErrFalseResponse /\
  run (Tree (JString "ok")) = Some ErrUnexpectedFormat /\
  run Malformed = Some ErrUnexpectedFormat.
Proof. vm_compute. repeat split. Qed.

(** ** The token file under concurrent use *)

Module InterleavingFacts.
Import Interleaving.












End InterleavingFacts.

(** * Further properties of the packages *)

(** ** jwt *)

Section StoreMore.

Variable E : Env.

(** X1. A [SaveToken] that returns an error has not touched the in-memory
    record; the file is as before unless the error is the failed write
    itself, which leaves the file as the file system left it. *)
Theorem SaveToken_error_keeps_record (w : World) (token uid : string) (err : GoError) :
  result (SaveToken E token uid) w = Some err ->
  tokenData (after (SaveToken E token uid) w) = tokenData w /\
  (err <> ErrWriteTokenFile -> file (after (SaveToken E token uid) w) = file w) /\
  (err = ErrWriteTokenFile ->
     exists f, writeFault E = Some f /\ file (after (SaveToken E token uid) w) = f).
Proof.
  unfold after, result. run. unfold marshalTokenData.
  cbn [ExpiresAt UpdatedAt Token LastLoginUID].
  assert (forall (e0 : GoError) (w0 : World),
            e0 <> ErrWriteTokenFile -> tokenData w0 = tokenData w -> file w0 = file w ->
            Some e0 = Some err ->
            tokenData w0 = tokenData w /\
            (err <> ErrWriteTokenFile -> file w0 = file w) /\
            (err = ErrWriteTokenFile -> exists f, writeFault E = Some f /\ file w0 = f))
    as Hfail.
  { intros e0 w0 Hne Ht Hf H. injection H as <-. repeat split; auto. contradiction. }
  destruct (timeText E (now E (ticks w) + 24 * hour));
    [destruct (timeText E (now E (S (ticks w))))|]; cbn.
  2, 3: apply Hfail; first [discriminate | reflexivity].
  destruct (writeFault E) as [f|]; destruct (tokenDirIsDot E); cbn;
    try (destruct (mkdirFails E); cbn);
    first [ discriminate
          | apply Hfail; first [discriminate | reflexivity]
          | intros H; injection H as <-; split; [reflexivity|]; split;
            [congruence | eauto] ].
Qed.

(** X2. After a [SaveToken] that returned nil for a non-empty token, both
    accessors hand out what was saved, and the token counts as valid as
    long as the clock has not run 24 hours ahead. *)
Theorem SaveToken_then_get (w w' : World) (token uid : string) :
  SaveToken E token uid w = (None, w') ->
  token <> "" ->
  result GetToken w' = (token, true) /\
  result GetTokenWithUID w' = (token, uid, true) /\
  (now E (S (S (ticks w))) < now E (ticks w) + 24 * hour ->
   result (HasValidToken E) w' = true).
Proof.
  intros Hs Hne.
  destruct (SaveToken_ok _ _ _ _ _ Hs) as (e & u & _ & _ & Hk & Htd & _).
  unfold result, GetTokenWithUID. run. rewrite Htd. cbn [Token LastLoginUID ExpiresAt].
  destruct (String.eqb_spec token ""); [contradiction|]. cbn.
  repeat split. intros Hclk. rewrite Hk. apply Z.ltb_lt. exact Hclk.
Qed.

(** X3. A token that [HasValidToken] accepts is not expired for
    [IsTokenExpired] at the same instant. The two are not complements: at
    the very instant of expiry a non-empty token is neither valid nor
    expired, and a record with an empty token is never valid. *)
Theorem valid_token_is_not_expired (w : World) :
  (result (HasValidToken E) w = true -> result (IsTokenExpired E) w = false) /\
  (forall td, tokenData w = Some td -> now E (ticks w) = ExpiresAt td ->
     result (HasValidToken E) w = false /\ result (IsTokenExpired E) w = false) /\
  (forall td, tokenData w = Some td -> Token td = "" ->
     result (HasValidToken E) w = false).
Proof.
  unfold result. run. repeat split.
  - destruct (tokenData w) as [td|]; [|discriminate].
    destruct (String.eqb (Token td) ""); [discriminate|]. cbn.
    intros H. apply Z.ltb_lt in H. apply Z.ltb_ge. lia.
  - rewrite H. destruct (String.eqb (Token td) ""); [reflexivity|]. cbn.
    rewrite H0. apply Z.ltb_irrefl.
  - rewrite H. cbn. rewrite H0. apply Z.ltb_irrefl.
  - intros td -> ->. reflexivity.
Qed.

(** X4. After a [ClearToken] that returned nil the store is empty and stays
    so: nothing is handed out, a [LoadToken] finds no file and returns nil,
    and clearing again returns nil and changes nothing but the trace. *)
Theorem ClearToken_then_empty (w : World) :
  result (ClearToken E) w = None ->
  let w1 := after (ClearToken E) w in
  result GetToken w1 = ("", false) /\
  result (HasValidToken E) w1 = false /\
  result (LoadToken E) w1 = None /\
  tokenData (after (LoadToken E) w1) = None /\
  result (ClearToken E) w1 = None /\
  tokenData (after (ClearToken E) w1) = None /\
  file (after (ClearToken E) w1) = Missing.
Proof.
  unfold after, result. run.
  destruct (file w); cbn; try (destruct (removeFails E); cbn; [discriminate|]);
    intros _; repeat split.
Qed.

End StoreMore.

Lemma SaveToken_error_keeps_record_witness :
  let E := mkEnv (fun n => t0) (fun _ => TransportErr) (fun _ _ => TransportErr)
                 true false (Some (Present Malformed)) false
                 UTC.timeText UTC.parseTimeText in
  tokenData (after (SaveToken E "T1" "U1") holdingT0) = tokenData holdingT0 /\
  file (after (SaveToken E "T1" "U1") holdingT0) = Present Malformed.
Proof.
  intros E.
  destruct (SaveToken_error_keeps_record E holdingT0 "T1" "U1" ErrWriteTokenFile)
    as (H1 & _ & H3); [vm_compute; reflexivity|].
  split; [exact H1|].
  destruct (H3 eq_refl) as (f & Hf & ->). injection Hf as <-. reflexivity.
Defined.

Lemma SaveToken_then_get_witness :
  let E := quietEnv t0 (fun _ => TransportErr) (fun _ _ => TransportErr) in
  let w' := after (SaveToken E "T1" "U1") emptyWorld in
  result GetToken w' = ("T1", true) /\
  result GetTokenWithUID w' = ("T1", "U1", true) /\
  result (HasValidToken E) w' = true.
Proof.
  intros E w'.
  destruct (SaveToken_then_get E emptyWorld w' "T1" "U1") as (H1 & H2 & H3).
  - vm_compute. reflexivity.
  - discriminate.
  - split; [exact H1 | split; [exact H2 | apply H3; vm_compute; reflexivity]].
Defined.

Lemma valid_token_is_not_expired_witness :
  let E := quietEnv t0 (fun _ => TransportErr) (fun _ _ => TransportErr) in
  result (IsTokenExpired E) holdingT0 = false.
Proof.
  intros E. apply (proj1 (valid_token_is_not_expired E holdingT0)).
  vm_compute. reflexivity.
Defined.

Lemma ClearToken_then_empty_witness :
  let E := quietEnv t0 (fun _ => TransportErr) (fun _ _ => TransportErr) in
  result GetToken (after (ClearToken E) holdingT0) = ("", false).
Proof.
  intros E. apply (ClearToken_then_empty E holdingT0). vm_compute. reflexivity.
Defined.

(** ** mizito/auth.go *)

Section AuthMore.

Variable E : Env.

Lemma GetToken_present (w : World) (t : string) :
  result GetToken w = (t, true) ->
  t <> "" /\ exists td, tokenData w = Some td /\ Token td = t.
Proof.
  unfold result. run. destruct (tokenData w) as [td|]; [|discriminate].
  destruct (String.eqb_spec (Token td) ""); [discriminate|].
  cbn. intros H. injection H as <-. eauto.
Qed.

Lemma HasValidToken_true (w : World) :
  result (HasValidToken E) w = true ->
  exists td, tokenData w = Some td /\ Token td <> "" /\
             now E (ticks w) < ExpiresAt td /\
             ticks (after (HasValidToken E) w) = S (ticks w).
Proof.
  unfold result, after. run. destruct (tokenData w) as [td|]; [|discriminate].
  destruct (String.eqb_spec (Token td) ""); [discriminate|].
  cbn. intros H. apply Z.ltb_lt in H. eauto.
Qed.

Lemma HasValidToken_frame (w : World) :
  tokenData (after (HasValidToken E) w) = tokenData w /\
  file (after (HasValidToken E) w) = file w /\
  logins (after (HasValidToken E) w) = logins w /\
  trace (after (HasValidToken E) w) = trace w /\
  (ticks w <= ticks (after (HasValidToken E) w))%nat.
Proof.
  unfold after. run. destruct (tokenData w) as [td|] eqn:Ht; cbn;
    [destruct (String.eqb (Token td) ""); cbn|]; rewrite ?Ht; repeat split; lia.
Qed.

Lemma LoadToken_frame (w : World) :
  file (after (LoadToken E) w) = file w /\
  logins (after (LoadToken E) w) = logins w /\
  ticks (after (LoadToken E) w) = ticks w /\
  trace (after (LoadToken E) w) = (trace w ++ [EvReadFile])%list.
Proof.
  unfold after. run. destruct (file w) as [| |d] eqn:Hf; cbn;
    [| |destruct (unmarshalTokenData E d); cbn]; rewrite ?Hf; repeat split.
Qed.

Lemma SaveToken_frame (token uid : string) (w : World) :
  logins (after (SaveToken E token uid) w) = logins w /\
  (ticks w <= ticks (after (SaveToken E token uid) w))%nat.
Proof.
  unfold after. run.
  destruct (marshalTokenData E _); cbn; [|split; lia].
  destruct (tokenDirIsDot E); cbn; [|destruct (mkdirFails E); cbn; [split; lia|]];
    destruct (writeFault E); cbn; split; lia.
Qed.

Lemma Login_frame (w : World) :
  logins (after (Login E) w) = S (logins w) /\
  (ticks w <= ticks (after (Login E) w))%nat /\
  exists tr, trace (after (Login E) w) = (trace w ++ EvLogin :: tr)%list.
Proof.
  assert (forall (r : option GoError),
            let w1 := mkWorld (tokenData w) (file w) (ticks w) (S (logins w)) (sends w)
                              (trace w ++ [EvLogin]) in
            logins (snd (r, w1)) = S (logins w) /\
            (ticks w <= ticks (snd (r, w1)))%nat /\
            exists tr, trace (snd (r, w1)) = (trace w ++ EvLogin :: tr)%list) as Hstop.
  { intros r. cbn. repeat split; [lia | exists []; reflexivity]. }
  unfold after, Login, bind. cbv [doLogin bind emit]. cbn [fst snd logins].
  destruct (loginResp E (logins w)) as [| |code body]; try apply Hstop.
  destruct (negb (code =? 200)); [apply Hstop|].
  destruct (unmarshalLoginResponse body) as [lr|]; [|apply Hstop].
  destruct (negb (lrStatus lr =? 1)).
  - destruct (unmarshalErrorResponse body); apply Hstop.
  - match goal with
    | |- context [SaveToken E ?a ?b ?w1] =>
      destruct (SaveToken_frame a b w1) as [Hl Hk];
      destruct (grows_SaveToken E a b w1) as [tr Htr];
      unfold after in Hl, Hk, Htr;
      destruct (SaveToken E a b w1) as [[e|] w2]
    end; cbn in *; (split; [|split]); try lia;
      exists tr; rewrite Htr; rewrite <- app_assoc; reflexivity.
Qed.


Lemma Login_ok (w w' : World) :
  Login E w = (None, w') ->
  exists body lr e u,
    loginResp E (logins w) = Resp 200 body /\
    unmarshalLoginResponse body = Some lr /\
    lrStatus lr = 1 /\
    tokenData w' = Some (mkTokenData (lrToken lr) (lrLastLoginUID lr)
                           (now E (ticks w) + 24 * hour) (now E (S (ticks w)))) /\
    file w' = Present (Tree (JObject
      [("token", JString (toValidUTF8 (lrToken lr)));
       ("last_login_uid", JString (toValidUTF8 (lrLastLoginUID lr)));
       ("expires_at", JString e); ("updated_at", JString u)])).
Proof.
  cbv [Login bind doLogin emit]. cbn [fst snd logins].
  destruct (loginResp E (logins w)) as [| |code body]; try discriminate.
  destruct (code =? 200) eqn:Hcode; cbn [negb]; [|discriminate].
  apply Z.eqb_eq in Hcode. subst code.
  destruct (unmarshalLoginResponse body) as [lr|] eqn:Hu; [|discriminate].
  destruct (lrStatus lr =? 1) eqn:Hst; cbn [negb].
  2:{ destruct (unmarshalErrorResponse body); discriminate. }
  apply Z.eqb_eq in Hst.
  match goal with
  | |- context [SaveToken E ?a ?b ?w1] => destruct (SaveToken E a b w1) as [[e|] w2] eqn:Hs
  end; [discriminate|].
  intros H. injection H as <-.
  destruct (SaveToken_ok _ _ _ _ _ Hs) as (e & u & _ & _ & _ & Htd & Hf).
  cbn [ticks] in *. exists body, lr, e, u. repeat split; assumption.
Qed.







(** X9. [EnsureValidToken] calls the login endpoint at most once, and when
    it returns nil the store holds a record. *)
Theorem EnsureValidToken_bounded (w : World) :
  (logins (after (EnsureValidToken E) w) <= S (logins w))%nat /\
  (result (EnsureValidToken E) w = None ->
   exists td, tokenData (after (EnsureValidToken E) w) = Some td).
Proof.
  pose proof (HasValidToken_true w) as T1.
  destruct (HasValidToken_frame w) as (F1 & _ & F3 & _ & _).
  unfold EnsureValidToken, after, result, bind, ret in *.
  destruct (HasValidToken E w) as [[|] w0]; cbn [fst snd] in *.
  - destruct (T1 eq_refl) as (td & Ht & _). split; [lia|].
    intros _. exists td. congruence.
  - destruct (LoadToken_frame w0) as (_ & L2 & _ & _). unfold after in L2.
    destruct (LoadToken E w0) as [e w1]. cbn [snd] in *.
    pose proof (HasValidToken_true w1) as T2.
    destruct (HasValidToken_frame w1) as (G1 & _ & G3 & _ & _).
    unfold after, result in *.
    destruct (HasValidToken E w1) as [[|] w2]; cbn [fst snd] in *.
    + destruct (T2 eq_refl) as (td & Ht & _). split; [lia|].
      intros _. exists td. congruence.
    + destruct (Login_frame w2) as (K1 & _). unfold after in K1.
      split; [lia|].
      destruct (Login E w2) as [[e2|] w3] eqn:HL; cbn [fst snd]; [discriminate|].
      intros _. destruct (Login_ok _ _ HL) as (b & lr & x & y & _ & _ & _ & Htd & _).
      eauto.
Qed.

(** X10. A token handed out by [AuthService.GetToken] is never empty and is
    the one the store holds. If no login was made to obtain it, the clock
    was read during the call at an instant before the token's expiry: a
    token found expired is not handed out without a fresh login. *)
Theorem AuthGetToken_sound (w w' : World) (t : string) :
  AuthGetToken E w = (inl t, w') ->
  t <> "" /\
  exists td, tokenData w' = Some td /\ Token td = t /\
    (logins w' = logins w ->
     exists k, (ticks w <= k < ticks w')%nat /\ now E k < ExpiresAt td).
Proof.
  unfold AuthGetToken, bind.
  destruct (EnsureValidToken E w) as [[e|] w0] eqn:HE; [discriminate|].
  rewrite GetToken_pure. destruct (result GetToken w0) as [tk [|]] eqn:Hg; cbn;
    intros H; inversion H; subst; clear H.
  destruct (GetToken_present _ _ Hg) as (Hne & td & Htd & Ht).
  split; [exact Hne|]. exists td. repeat split; try assumption.
  intros Hl. revert HE. unfold EnsureValidToken, bind, ret.
  pose proof (HasValidToken_true w) as T1.
  destruct (HasValidToken_frame w) as (F1 & _ & F3 & _ & F5).
  unfold after, result in *.
  destruct (HasValidToken E w) as [[|] w1]; cbn [fst snd] in *.
  - intros H. injection H as <-. destruct (T1 eq_refl) as (td1 & Ht1 & _ & Hlt & Hk).
    exists (ticks w). split; [lia|]. congruence.
  - destruct (LoadToken_frame w1) as (_ & L2 & L3 & _). unfold after in L2, L3.
    destruct (LoadToken E w1) as [e w2]. cbn [snd] in *.
    pose proof (HasValidToken_true w2) as T2.
    destruct (HasValidToken_frame w2) as (G1 & _ & G3 & _ & G5).
    unfold after, result in *.
    destruct (HasValidToken E w2) as [[|] w3]; cbn [fst snd] in *.
    + intros H. injection H as <-.
      destruct (T2 eq_refl) as (td2 & Ht2 & _ & Hlt & Hk).
      exists (ticks w2). split; [lia|]. congruence.
    + intros HL. destruct (Login_frame w3) as (K1 & _). unfold after in K1.
      rewrite HL in K1. cbn [snd] in K1. lia.
Qed.


End AuthMore.

(** ** mizito/message.go *)

Section MessageMore.

Variable E : Env.

Lemma EnsureValidToken_logins (w : World) :
  (logins w <= logins (after (EnsureValidToken E) w) <= S (logins w))%nat.
Proof.
  destruct (HasValidToken_frame E w) as (_ & _ & F3 & _ & _).
  unfold EnsureValidToken, after, bind, ret in *.
  destruct (HasValidToken E w) as [[|] w0]; cbn [fst snd] in *; [lia|].
  destruct (LoadToken_frame E w0) as (_ & L2 & _ & _). unfold after in L2.
  destruct (LoadToken E w0) as [e w1]. cbn [snd] in *.
  destruct (HasValidToken_frame E w1) as (_ & _ & G3 & _ & _). unfold after in G3.
  destruct (HasValidToken E w1) as [[|] w2]; cbn [fst snd] in *; [lia|].
  destruct (Login_frame E w2) as (K1 & _). unfold after in K1. lia.
Qed.

Lemma AuthGetToken_logins (w : World) :
  (logins w <= logins (after (AuthGetToken E) w) <= S (logins w))%nat.
Proof.
  pose proof (EnsureValidToken_logins w) as H.
  unfold AuthGetToken, after, bind, ret in *.
  destruct (EnsureValidToken E w) as [[e|] w0]; cbn [fst snd] in *; [exact H|].
  rewrite GetToken_pure. destruct (snd (result GetToken w0)); exact H.
Qed.

Lemma retryPrelude_logins (attempt : nat) (tok : string) (w : World) :
  (logins w <= logins (after (retryPrelude E attempt tok) w)
   <= (if (0 <? attempt)%nat then 2 else 0) + logins w)%nat.
Proof.
  unfold retryPrelude, after, bind, ret.
  destruct (0 <? attempt)%nat; [|cbn; lia].
  assert (logins (snd (RefreshToken E w)) = S (logins w)) as HR.
  { unfold RefreshToken, bind. destruct (ClearToken E w) as [c w0] eqn:Hc.
    assert (logins w0 = logins w) as Hl.
    { revert Hc. run. destruct (file w); try destruct (removeFails E);
        intros H; injection H as _ <-; reflexivity. }
    destruct (Login_frame E w0) as (K1 & _). unfold after in K1. congruence. }
  destruct (RefreshToken E w) as [[err|] w1]; cbn [fst snd] in *; [lia|].
  pose proof (AuthGetToken_logins w1) as HA. unfold after in HA.
  destruct (AuthGetToken E w1) as [[t|err] w2]; cbn [fst snd] in *; lia.
Qed.

(** Sends, refreshes and logins of the loop: one send per iteration, one
    refresh and two logins per retry. *)
Lemma retryLoop_bounds (N rest : nat) :
  forall tok lastErr w,
    let w' := after (retryLoop E N rest tok lastErr) w in
    (sends w' <= sends w + rest)%nat /\
    (refreshes (trace w') <= refreshes (trace w) + Nat.min rest N)%nat /\
    (logins w' <= logins w + 2 * Nat.min rest N)%nat.
Proof.
  induction rest as [|rest IH]; intros tok lastErr w; cbv zeta.
  - cbn. lia.
  - unfold after. rewrite retryLoop_step.
    destruct (retryPrelude_counts E (N - rest) tok w) as [Hs Hr].
    pose proof (retryPrelude_logins (N - rest) tok w) as Hl.
    unfold after in Hs, Hr, Hl.
    assert (((if (0 <? N - rest)%nat then 1 else 0) + Nat.min rest N
             = Nat.min (S rest) N)%nat) as Hmin.
    { destruct (0 <? N - rest)%nat eqn:H0;
        [apply Nat.ltb_lt in H0 | apply Nat.ltb_ge in H0]; lia. }
    assert (((if (0 <? N - rest)%nat then 2 else 0) + 2 * Nat.min rest N
             = 2 * Nat.min (S rest) N)%nat) as Hmin2.
    { destruct (0 <? N - rest)%nat eqn:H0;
        [apply Nat.ltb_lt in H0 | apply Nat.ltb_ge in H0]; lia. }
    destruct (retryPrelude E (N - rest) tok w) as [[t|err] w1]; cbn [snd] in *.
    + rewrite doSend_spec. cbn [snd].
      assert (forall t0 le (r : option GoError * World),
                r = retryLoop E N rest t0 le
                      (mkWorld (tokenData w1) (file w1) (ticks w1) (logins w1)
                               (S (sends w1)) (trace w1 ++ [EvSend t])) \/
                snd r = mkWorld (tokenData w1) (file w1) (ticks w1) (logins w1)
                                (S (sends w1)) (trace w1 ++ [EvSend t]) ->
                (sends (snd r) <= sends w + S rest)%nat /\
                (refreshes (trace (snd r)) <= refreshes (trace w) + Nat.min (S rest) N)%nat /\
                (logins (snd r) <= logins w + 2 * Nat.min (S rest) N)%nat) as H.
      { intros t0 le r [-> | ->].
        - specialize (IH t0 le
            (mkWorld (tokenData w1) (file w1) (ticks w1) (logins w1)
                     (S (sends w1)) (trace w1 ++ [EvSend t]))).
          cbv zeta in IH. unfold after in IH. cbn [sends trace logins] in IH.
          rewrite refreshes_app in IH. cbn [refreshes] in IH. lia.
        - cbn [sends trace logins]. rewrite refreshes_app. cbn [refreshes]. lia. }
      repeat match goal with
      | |- context [match ?x with _ => _ end] => destruct x
      end;
      first [ eapply H; left; reflexivity
            | eapply (H tok None); right; reflexivity ].
    + specialize (IH tok (Some err) w1). cbv zeta in IH. unfold after in IH. lia.
Qed.

(** X12. A delivery is bounded: at most three sends, at most two refreshes
    and at most five calls to the login endpoint, whatever the servers
    answer. *)
Theorem SendMessage_bounded (text : string) (w : World) :
  let w' := after (SendMessage E text) w in
  (sends w' <= sends w + 3)%nat /\
  (refreshes (trace w') <= refreshes (trace w) + 2)%nat /\
  (logins w' <= logins w + 5)%nat.
Proof.
  cbv zeta. unfold SendMessage, after, bind, ret.
  destruct (quiet_AuthGetToken E w) as [Qs Qr].
  pose proof (AuthGetToken_logins w) as Ql. unfold after in Qs, Qr, Ql.
  destruct (AuthGetToken E w) as [[tok|err] w1]; cbn [fst snd] in *; [|lia].
  unfold sendMessageWithRetry. cbv beta iota delta [timeNow].
  match goal with
  | |- context [retryLoop E 2 3 tok None ?w2] =>
    pose proof (retryLoop_bounds 2 3 tok None w2) as H
  end.
  cbv zeta in H. unfold after in H. cbn [sends trace logins Nat.min] in H. lia.
Qed.

(** What the loop can return, by induction on the iterations left: nil
    only straight after a send answered 200 with a success body; "failed
    after" only around the error of an iteration that went on; never the
    error of the first token fetch. *)
Lemma retryLoop_results_gen (N rest : nat) :
  forall tok lastErr w,
    (rest = 0%nat -> exists e, lastErr = Some e /\ isContinueError e = true) ->
    loopResultOK E N (retryLoop E N rest tok lastErr w).
Proof.
  assert (forall (x : GoError) (w0 : World),
            (forall n y, x <> ErrFailedAfter n y) -> (forall c, x <> ErrGetJWTToken c) ->
            loopResultOK E N (Some x, w0)) as Hdirect.
  { intros x w0 H1 H2. unfold loopResultOK. cbn [fst snd]. split; [|split].
    - discriminate.
    - intros n y H. injection H as ->. destruct (H1 n y eq_refl).
    - intros c H. injection H as ->. destruct (H2 c eq_refl). }
  induction rest as [|rest IH]; intros tok lastErr w Hle.
  - destruct (Hle eq_refl) as (e & -> & He).
    unfold loopResultOK. cbn [retryLoop ret fst snd]. split; [|split].
    + discriminate.
    + intros n y H. injection H as <- <-. split; [reflexivity | eauto].
    + discriminate.
  - rewrite retryLoop_step.
    destruct (retryPrelude_counts E (N - rest) tok w) as [Hs _]. unfold after in Hs.
    destruct (retryPrelude E (N - rest) tok w) as [[t|err] w1] eqn:Hpre; cbn [snd] in Hs.
    2:{ apply IH. intros _. exists err. split; [reflexivity|].
        revert Hpre. unfold retryPrelude, bind, ret.
        destruct (0 <? N - rest)%nat; [|discriminate].
        destruct (RefreshToken E w) as [[e0|] w0];
          [intros H; injection H as <- _; reflexivity|].
        destruct (AuthGetToken E w0) as [[t0|e0] w2]; [discriminate|].
        intros H; injection H as <- _; reflexivity. }
    rewrite doSend_spec. cbn [snd].
    destruct (sendResp E (sends w1) t) as [| |code body] eqn:Hresp.
    + apply IH. intros _. eexists. split; reflexivity.
    + apply IH. intros _. eexists. split; reflexivity.
    + destruct (code =? 401) eqn:H401.
      { destruct (N - rest <? N)%nat eqn:Hlt.
        - apply IH. intros ->. apply Nat.ltb_lt in Hlt. lia.
        - apply Hdirect; intros; discriminate. }
      destruct (code =? 200) eqn:H200; cbn [negb];
        [|apply Hdirect; intros; discriminate].
      apply Z.eqb_eq in H200. subst code.
      assert (successBody body ->
              loopResultOK E N
                (None, mkWorld (tokenData w1) (file w1) (ticks w1) (logins w1)
                               (S (sends w1)) (trace w1 ++ [EvSend t]))) as Hok.
      { intros Hb. unfold loopResultOK. cbn [fst snd]. split; [|split].
        - intros _. exists (trace w1), t, (sends w1), body.
          split; [reflexivity|]. split; [reflexivity|]. split; assumption.
        - discriminate.
        - discriminate. }
      destruct (unmarshalBool body) as [[|]|] eqn:Hb.
      * apply Hok. left. exact Hb.
      * apply Hdirect; intros; discriminate.
      * destruct (unmarshalMessageResponse body) as [m|] eqn:Hm;
          [|apply Hdirect; intros; discriminate].
        destruct (mrStatus m =? 1) eqn:Hst; cbn [negb];
          [|apply Hdirect; intros; discriminate].
        apply Z.eqb_eq in Hst. apply Hok. right. split; [exact Hb|]. eauto.
Qed.

Lemma retryLoop_results (N rest : nat) (tok : string) (lastErr : option GoError)
    (w : World) :
  loopResultOK E N (retryLoop E N (S rest) tok lastErr w).
Proof. apply retryLoop_results_gen. discriminate. Qed.


(** X14. An answer whose status is neither 200 nor 401 ends the delivery at
    once with that status, in whatever iteration it arrives: it is not
    retried and no refresh follows. *)
Theorem other_status_is_final (N rest : nat) (tok : string)
    (lastErr : option GoError) (w : World) (t : string) (code : Z) (body : Doc) :
  result (retryPrelude E (N - rest) tok) w = inl t ->
  sendResp E (sends (after (retryPrelude E (N - rest) tok) w)) t = Resp code body ->
  code <> 200 -> code <> 401 ->
  retryLoop E N (S rest) tok lastErr w
    = (Some (ErrSendHTTPStatus code),
       after (doSend E t) (after (retryPrelude E (N - rest) tok) w)).
Proof.
  unfold result, after. rewrite retryLoop_step.
  destruct (retryPrelude E (N - rest) tok w) as [[t0|e] w1]; cbn [fst snd];
    [|discriminate].
  intros H. injection H as ->. intros -> H200 H401.
  apply Z.eqb_neq in H200, H401. rewrite H200, H401. reflexivity.
Qed.

(** X15. When the delivery gives up with "failed after 3 attempts", the
    error it wraps is never nil: it is the error of a failed refresh, of a
    failed token fetch, of a failed request or of a failed body read. *)
Theorem SendMessage_failed_after_has_cause (text : string) (w : World)
    (n : Z) (x : option GoError) :
  result (SendMessage E text) w = Some (ErrFailedAfter n x) ->
  n = 3 /\ exists e, x = Some e /\ isContinueError e = true.
Proof.
  unfold SendMessage, result, bind, ret.
  destruct (AuthGetToken E w) as [[tok|err] w1]; cbn [fst snd]; [|discriminate].
  unfold sendMessageWithRetry. cbv beta iota delta [timeNow].
  match goal with
  | |- context [retryLoop E 2 3 tok None ?w2] =>
    exact (proj1 (proj2 (retryLoop_results 2 2 tok None w2)) n x)
  end.
Qed.

(** X16. [SendMessage] fails with "failed to get JWT token" exactly when
    the token fetch that precedes the loop fails, and then it stops there:
    nothing is sent. *)
Theorem SendMessage_without_token (text : string) (w : World) (c : GoError) :
  (result (SendMessage E text) w = Some (ErrGetJWTToken c) <->
   result (AuthGetToken E) w = inr c) /\
  (result (AuthGetToken E) w = inr c ->
   after (SendMessage E text) w = after (AuthGetToken E) w /\
   sends (after (SendMessage E text) w) = sends w).
Proof.
  destruct (quiet_AuthGetToken E w) as [Qs _].
  unfold SendMessage, result, after, bind, ret in *.
  destruct (AuthGetToken E w) as [[tok|err] w1]; cbn [fst snd] in *.
  - unfold sendMessageWithRetry. cbv beta iota delta [timeNow].
    split; [|discriminate]. split; [|discriminate].
    match goal with
    | |- context [retryLoop E 2 3 tok None ?w2] =>
      intros H; destruct (proj2 (proj2 (retryLoop_results 2 2 tok None w2)) c H)
    end.
  - split; [split; intros H; injection H as ->; reflexivity|].
    intros _. split; [reflexivity | exact Qs].
Qed.

End MessageMore.

(** ** Concrete runs for the further properties *)





Lemma EnsureValidToken_bounded_witness :
  let E := quietEnv t0 (fun _ => loginOK "T1" "U1") (fun _ _ => TransportErr) in
  exists td, tokenData (after (EnsureValidToken E) emptyWorld) = Some td.
Proof.
  intros E. apply (proj2 (EnsureValidToken_bounded E emptyWorld)).
  vm_compute. reflexivity.
Defined.

Lemma AuthGetToken_sound_witness :
  let E := quietEnv t0 (fun _ => TransportErr) (fun _ _ => TransportErr) in
  "T0" <> "".
Proof.
  intros E.
  apply (proj1 (AuthGetToken_sound E holdingT0 (after (AuthGetToken E) holdingT0) "T0"
                  eq_refl)).
Defined.



Lemma other_status_is_final_witness :
  let E := quietEnv t0 (fun _ => loginOK "T1" "U1") (fun _ _ => Resp 500 Malformed) in
  result (sendMessageWithRetry E "T0" 2) holdingT0 = Some (ErrSendHTTPStatus 500).
Proof.
  intros E. unfold sendMessageWithRetry, result.
  rewrite (other_status_is_final E 2 2 "T0" None holdingT0 "T0" 500 Malformed);
    [reflexivity | reflexivity | reflexivity | discriminate | discriminate].
Defined.

Lemma SendMessage_failed_after_has_cause_witness :
  let E := quietEnv t0 (fun _ => loginOK "T1" "U1") (fun _ _ => TransportErr) in
  exists e, Some ErrMessageRequestFailed = Some e /\ isContinueError e = true.
Proof.
  intros E.
  apply (SendMessage_failed_after_has_cause E "hello" holdingT0 3
           (Some ErrMessageRequestFailed)).
  vm_compute. reflexivity.
Defined.

Lemma SendMessage_without_token_witness :
  let E := quietEnv t0 (fun _ => TransportErr) (fun _ _ => bodyTrue) in
  result (SendMessage E "hello") emptyWorld
    = Some (ErrGetJWTToken (ErrEnsureValidToken ErrLoginRequestFailed)) /\
  sends (after (SendMessage E "hello") emptyWorld) = 0%nat.
Proof.
  intros E.
  destruct (SendMessage_without_token E "hello" emptyWorld
              (ErrEnsureValidToken ErrLoginRequestFailed)) as [[_ H1] H2].
  split; [apply H1; reflexivity | apply H2; reflexivity].
Defined.

(** ** mizito/message.go: the time string *)

Lemma byteZ_digit (d : Z) :
  0 <= d <= 9 -> byteZ (ascii_of_N (Z.to_N (176 + d))) = 176 + d.
Proof.
  intros H. unfold byteZ. rewrite N_ascii_embedding by lia. lia.
Qed.

Lemma persianValue_digit (d : Z) (r : string) (v wt : Z) :
  0 <= d <= 9 -> persianValue r = Some (v, wt) ->
  persianValue (persianDigit d ++ r) = Some (d * wt + v, 10 * wt).
Proof.
  intros Hd Hr. unfold persianDigit. cbn [append persianValue].
  unfold inRange. rewrite (byteZ_digit d Hd), Hr.
  replace (byteZ (ascii_of_nat 219) =? 219) with true by reflexivity.
  replace ((176 <=? 176 + d) && (176 + d <=? 185)) with true
    by (symmetry; apply andb_true_intro; split; apply Z.leb_le; lia).
  cbn [andb]. do 2 f_equal. lia.
Qed.

Lemma persianLoop_value (fuel : nat) :
  forall num res v wt,
    0 <= num < 2 ^ Z.of_nat fuel ->
    persianValue res = Some (v, wt) ->
    exists wt', persianValue (persianLoop fuel num res) = Some (num * wt + v, wt').
Proof.
  induction fuel as [|fuel IH]; intros num res v wt Hn Hr.
  - cbn in *. assert (num = 0) as -> by lia. exists wt. exact Hr.
  - cbn [persianLoop]. destruct (0 <? num) eqn:Hpos.
    + apply Z.ltb_lt in Hpos.
      assert (0 <= num mod 10 <= 9) as Hd by (pose proof (Z.mod_pos_bound num 10); lia).
      destruct (IH (num / 10) (persianDigit (num mod 10) ++ res)
                   ((num mod 10) * wt + v) (10 * wt)) as [wt' Hw].
      * rewrite Nat2Z.inj_succ, Z.pow_succ_r in Hn by lia.
        split; [apply Z.div_pos; lia|].
        apply Z.div_lt_upper_bound; lia.
      * apply persianValue_digit; assumption.
      * exists wt'. rewrite Hw. do 2 f_equal.
        pose proof (Z.div_mod num 10 ltac:(lia)). nia.
    + apply Z.ltb_ge in Hpos. assert (num = 0) as -> by lia.
      exists wt. exact Hr.
Qed.

Lemma toPersianNumeral_digits (num : Z) :
  (0 <= num -> option_map fst (persianValue (toPersianNumeral num)) = Some num) /\
  (num <= 0 -> toPersianNumeral num = persianDigit 0 ++ persianDigit 0).
Proof.
  split.
  - intros Hn. unfold toPersianNumeral.
    destruct (persianLoop_value (S (Z.to_nat (Z.log2 num))) num "" 0 1) as [wt Hv].
    + rewrite Nat2Z.inj_succ, Z2Nat.id by apply Z.log2_nonneg.
      destruct (Z.eq_dec num 0) as [-> | Hz]; [cbn; lia|].
      split; [exact Hn|]. apply Z.log2_spec. lia.
    + reflexivity.
    + cbv zeta. destruct (String.eqb_spec (persianLoop (S (Z.to_nat (Z.log2 num))) num "") "")
        as [He | He].
      * rewrite He in Hv. cbn in Hv. injection Hv as Hv _.
        assert (num = 0) as -> by lia. reflexivity.
      * rewrite Hv. cbn. f_equal. lia.
  - intros Hn. unfold toPersianNumeral.
    replace (Z.log2 num) with 0 by (symmetry; apply Z.log2_nonpos; exact Hn).
    cbn [Z.to_nat persianLoop].
    replace (0 <? num) with false by (symmetry; apply Z.ltb_ge; exact Hn).
    reflexivity.
Qed.

(** X17. [toPersianNumeral] writes a number that is not negative in
    Persian digits that read back as that number; zero and negative
    numbers come out as the two digits "00". *)
Theorem toPersianNumeral_value (num : Z) :
  (0 <= num -> option_map fst (persianValue (toPersianNumeral num)) = Some num) /\
  (num <= 0 -> toPersianNumeral num = persianDigit 0 ++ persianDigit 0).
Proof. exact (toPersianNumeral_digits num). Qed.

Lemma splitColon_digits (n : nat) :
  forall s x t, (String.length s <= n)%nat -> persianValue s = Some x ->
    splitColon (s ++ ":" ++ t) = Some (s, t).
Proof.
  induction n as [|n IH]; intros s x t Hlen Hv.
  - destruct s; [reflexivity | cbn in Hlen; lia].
  - destruct s as [|a [|b r]]; [reflexivity | discriminate |].
    cbn [persianValue] in Hv.
    destruct ((byteZ a =? 219) && inRange 176 185 b) eqn:Hab; [|discriminate].
    apply andb_prop in Hab. destruct Hab as [Ha Hb].
    destruct (persianValue r) as [[v wt]|] eqn:Hr; [|discriminate].
    cbn [append splitColon].
    assert (Ascii.eqb a ":" = false) as ->.
    { apply Ascii.eqb_neq. intros ->. discriminate. }
    assert (Ascii.eqb b ":" = false) as ->.
    { apply Ascii.eqb_neq. intros ->. discriminate. }
    assert (splitColon (r ++ ":" ++ t) = Some (r, t)) as H
      by (apply (IH r (v, wt) t); [cbn in Hlen; lia | exact Hr]).
    cbn [append] in H. rewrite H. reflexivity.
Qed.

(** X18. The time string is unambiguous although the numbers are not
    padded: hour and minute read back from it. *)
Theorem formatPersianTime_reads_back (hour minute : Z) :
  0 <= hour -> 0 <= minute ->
  parsePersianTime (formatPersianTime hour minute) = Some (hour, minute).
Proof.
  intros Hh Hm. unfold formatPersianTime, parsePersianTime.
  pose proof (proj1 (toPersianNumeral_digits hour) Hh) as Vh.
  pose proof (proj1 (toPersianNumeral_digits minute) Hm) as Vm.
  destruct (persianValue (toPersianNumeral hour)) as [[h wh]|] eqn:Eh; [|discriminate].
  destruct (persianValue (toPersianNumeral minute)) as [[m wm]|] eqn:Em; [|discriminate].
  cbn in Vh, Vm. injection Vh as ->. injection Vm as ->.
  rewrite (splitColon_digits _ _ _ _ (Nat.le_refl _) Eh).
  rewrite Eh, Em. reflexivity.
Qed.

(** ** handler *)

Lemma hasPrefix_app (p t : string) : hasPrefix (p ++ t) p = true.
Proof.
  induction p as [|a p IH]; [reflexivity|].
  cbn. rewrite Ascii.eqb_refl. exact IH.
Qed.

Lemma dropS_app (p t : string) : dropS (String.length p) (p ++ t) = t.
Proof. induction p as [|a p IH]; [reflexivity | exact IH]. Qed.

Lemma hasPrefix_split (p : string) :
  forall s, hasPrefix s p = true -> s = p ++ dropS (String.length p) s.
Proof.
  induction p as [|a p IH]; intros s H; [reflexivity|].
  destruct s as [|b s]; [discriminate|]. cbn in *.
  apply andb_prop in H. destruct H as [Hab H].
  apply Ascii.eqb_eq in Hab. subst b. f_equal. apply IH. exact H.
Qed.

Lemma append_nil_r_local (s : string) : s ++ "" = s.
Proof. induction s as [|c s IH]; [reflexivity | cbn; now rewrite IH]. Qed.

(** Which requests present the token [tok]. *)
Lemma providedToken_is (r : Request) (tok : string) :
  tok <> "" ->
  (providedToken r = tok <->
   queryToken r = tok \/
   (queryToken r = "" /\ headerGet "Authorization" (headers r) = "Bearer " ++ tok)).
Proof.
  intros Hne. unfold providedToken, trimPrefix.
  destruct (String.eqb_spec (queryToken r) "") as [Hq | Hq]; cbn [negb].
  - cbn [String.eqb].
    destruct (hasPrefix (headerGet "Authorization" (headers r)) "Bearer ") eqn:Hp.
    + pose proof (hasPrefix_split _ _ Hp) as Hs. split.
      * intros H. right. split; [exact Hq|]. rewrite Hs, H. reflexivity.
      * intros [H | [_ H]]; [congruence|].
        rewrite H. exact (dropS_app "Bearer " tok).
    + split; [intros H; congruence|].
      intros [H | [_ H]]; [congruence|].
      rewrite H in Hp. rewrite (hasPrefix_app "Bearer " tok) in Hp. discriminate.
  - destruct (String.eqb_spec (queryToken r) "") as [Hq' | _]; [contradiction|].
    split; [intros H; left; exact H|].
    intros [H | [H _]]; [exact H | contradiction].
Qed.

(** X19. With an app token configured, [AppTokenMiddleware] lets a request
    through exactly when the [token] query parameter is the app token, or
    that parameter is empty and the [Authorization] header is [Bearer]
    followed by the app token; every other request gets 401 and the handler
    behind is not run. A non-empty query parameter is final: a right
    [Authorization] header does not make up for a wrong one. Without an app
    token every request passes. *)
Theorem AppTokenMiddleware_admits (appToken : string) (next : Request -> M Response)
    (r : Request) :
  (appToken = "" -> AppTokenMiddleware appToken next r = next r) /\
  (appToken <> "" ->
   (queryToken r = appToken \/
    (queryToken r = "" /\
     headerGet "Authorization" (headers r) = "Bearer " ++ appToken) ->
    AppTokenMiddleware appToken next r = next r) /\
   (~ (queryToken r = appToken \/
       (queryToken r = "" /\
        headerGet "Authorization" (headers r) = "Bearer " ++ appToken)) ->
    AppTokenMiddleware appToken next r = ret (mkResponse 401 UnauthorizedJSON)) /\
   (queryToken r <> "" -> queryToken r <> appToken ->
    AppTokenMiddleware appToken next r = ret (mkResponse 401 UnauthorizedJSON))).
Proof.
  unfold AppTokenMiddleware. split.
  - intros ->. reflexivity.
  - intros Hne. destruct (String.eqb_spec appToken ""); [contradiction|].
    pose proof (providedToken_is r appToken Hne) as Hiff.
    destruct (String.eqb_spec (providedToken r) appToken) as [Hp | Hp]; cbn [negb];
      repeat split; intros; try reflexivity.
    + exfalso. tauto.
    + exfalso. apply Hiff in Hp. destruct Hp as [Hp | [Hp _]]; contradiction.
    + exfalso. tauto.
Qed.

(** X20. The middleware reads nothing but the [token] query parameter and
    the [Authorization] header. A request that carries the app token only
    in [X-Gotify-Key], the third way its doc comment names, is answered
    401. *)
Theorem AppTokenMiddleware_ignores_gotify_key (appToken : string)
    (next : Request -> M Response) (r : Request) :
  appToken <> "" ->
  queryToken r = "" ->
  headerGet "Authorization" (headers r) = "" ->
  AppTokenMiddleware appToken next r = ret (mkResponse 401 UnauthorizedJSON) /\
  AppTokenMiddleware appToken next
    (mkRequest "" (("X-Gotify-Key", appToken) :: nil) (reqBody r))
    = ret (mkResponse 401 UnauthorizedJSON).
Proof.
  intros Hne Hq Ha.
  assert (forall r0, queryToken r0 = "" -> headerGet "Authorization" (headers r0) = "" ->
            AppTokenMiddleware appToken next r0 = ret (mkResponse 401 UnauthorizedJSON)) as H.
  { intros r0 Hq0 Ha0.
    assert (providedToken r0 = "") as Hp
      by (unfold providedToken; rewrite Hq0, Ha0; reflexivity).
    unfold AppTokenMiddleware. rewrite Hp.
    destruct (String.eqb_spec appToken ""); [contradiction|].
    destruct (String.eqb_spec "" appToken); [congruence | reflexivity]. }
  split; [apply H; assumption | apply H; reflexivity].
Qed.

(** The text is empty only when title and message both are. *)
Lemma notificationText_empty (title message : string) :
  notificationText title message = "" <-> title = "" /\ message = "".
Proof.
  unfold notificationText.
  destruct (String.eqb_spec title "") as [-> | Ht];
    destruct (String.eqb_spec message "") as [-> | Hm]; cbn [negb append].
  - tauto.
  - split; [intros H; contradiction | intros [_ H]; contradiction].
  - rewrite append_nil_r_local. split; [intros H; contradiction | intros [H _]; contradiction].
  - split; [|intros [H _]; contradiction].
    destruct title; [contradiction | discriminate].
Qed.

(** X21. The text handed to [SendMessage] is the title, the message, or
    the title, a colon and a space, and the message; it is empty only when
    both are empty, which the handler refuses: an empty text is never
    sent. *)
Theorem notificationText_shape (title message : string) :
  (title <> "" -> message <> "" ->
   notificationText title message = title ++ ": " ++ message) /\
  (message = "" -> notificationText title message = title) /\
  (title = "" -> notificationText title message = message) /\
  (notificationText title message = "" <-> title = "" /\ message = "").
Proof.
  split; [|split; [|split; [|apply notificationText_empty]]];
    unfold notificationText.
  - intros Ht Hm.
    destruct (String.eqb_spec title ""); [contradiction|].
    destruct (String.eqb_spec message ""); [contradiction|]. cbn [negb append].
    clear. induction title as [|c t IH]; [reflexivity|]. cbn. f_equal. exact IH.
  - intros ->. cbn [String.eqb negb].
    destruct (String.eqb_spec title "") as [-> | _]; [reflexivity|].
    cbn [negb append]. apply append_nil_r_local.
  - intros ->. cbn [String.eqb negb append].
    destruct (String.eqb_spec message ""); [subst; reflexivity | reflexivity].
Qed.


Section HandlerMore.

Variable E : Env.




End HandlerMore.

(** ** config *)

(** X24. [Load] succeeds exactly when the four required variables are set
    and not empty; otherwise its error names the first one missing, in the
    order user name, password, dialog, sender. *)
Theorem Load_requires (toLower : string -> string) (getenv : string -> string) :
  ((exists c, Load toLower getenv = inl c) <->
   getenv "MIZITO_USERNAME" <> "" /\ getenv "MIZITO_PASSWORD" <> "" /\
   getenv "MIZITO_DIALOG_ID" <> "" /\ getenv "MIZITO_FROM_USER_ID" <> "") /\
  (getenv "MIZITO_USERNAME" = "" ->
   Load toLower getenv = inr "MIZITO_USERNAME is required") /\
  (getenv "MIZITO_USERNAME" <> "" -> getenv "MIZITO_PASSWORD" = "" ->
   Load toLower getenv = inr "MIZITO_PASSWORD is required") /\
  (getenv "MIZITO_USERNAME" <> "" -> getenv "MIZITO_PASSWORD" <> "" ->
   getenv "MIZITO_DIALOG_ID" = "" ->
   Load toLower getenv = inr "MIZITO_DIALOG_ID is required") /\
  (getenv "MIZITO_USERNAME" <> "" -> getenv "MIZITO_PASSWORD" <> "" ->
   getenv "MIZITO_DIALOG_ID" <> "" -> getenv "MIZITO_FROM_USER_ID" = "" ->
   Load toLower getenv = inr "MIZITO_FROM_USER_ID is required").
Proof.
  unfold Load, validate, override.
  cbn [MizitoUsername MizitoPassword MizitoDialogID MizitoFromUserID DefaultConfig].
  destruct (String.eqb_spec (getenv "MIZITO_USERNAME") "") as [Hu | Hu];
    destruct (String.eqb_spec (getenv "MIZITO_PASSWORD") "") as [Hp | Hp];
    destruct (String.eqb_spec (getenv "MIZITO_DIALOG_ID") "") as [Hd | Hd];
    destruct (String.eqb_spec (getenv "MIZITO_FROM_USER_ID") "") as [Hf | Hf];
    cbn [negb String.eqb];
    repeat match goal with
    | |- context [String.eqb ?x ""] =>
      destruct (String.eqb_spec x ""); [contradiction|]
    end;
    (split; [split; [intros [c H]; try discriminate; tauto
                    | intros (H1 & H2 & H3 & H4); try contradiction; eauto]|]);
    repeat split; intros; try contradiction; reflexivity.
Qed.

(** Coercion to UTF-8 that yields plain ASCII has changed nothing. *)
Lemma coerce_ascii (fuel : nat) :
  forall s, (String.length s <= fuel)%nat ->
    allASCII (coerceUTF8 fuel s) = true -> coerceUTF8 fuel s = s.
Proof.
  induction fuel as [|fuel IH]; intros s Hlen.
  - destruct s; [reflexivity | cbn in Hlen; lia].
  - destruct s as [|c r]; [reflexivity|]. cbn [coerceUTF8].
    destruct (byteZ c <? 128) eqn:Hc.
    + assert (runeLen (String c r) = 1%nat) as -> by (cbn [runeLen]; rewrite Hc; reflexivity).
      cbn [takeS dropS append allASCII]. rewrite Hc. cbn [andb].
      intros H. f_equal. apply IH; [cbn in Hlen; lia | exact H].
    + destruct (runeLen (String c r)) as [|n].
      * cbn. discriminate.
      * cbn [takeS append allASCII]. rewrite Hc. discriminate.
Qed.

Lemma toValidUTF8_null (s : string) : toValidUTF8 s = "null" -> s = "null".
Proof.
  intros H. unfold toValidUTF8 in *.
  rewrite <- H. symmetry. apply coerce_ascii; [lia|]. rewrite H. reflexivity.
Qed.

(** X25. In the login request the login code and the registration id are
    JSON [null] exactly when the configured value is empty or the text
    [null]; with a configuration from [Load] that is exactly when the
    environment variable is unset, empty or [null], so the text [null] can
    never be sent as a login code. *)
Theorem loginRequestBody_null_fields (toLower : string -> string)
    (getenv : string -> string) (c : Config) :
  Load toLower getenv = inl c ->
  let isNull v := v = "" \/ v = "null" in
  exists code reg,
    loginRequestBody c =
      JObject [("username", JString (toValidUTF8 (getenv "MIZITO_USERNAME")));
               ("password", JString (toValidUTF8 (getenv "MIZITO_PASSWORD")));
               ("loginCode", code); ("regId", reg)] /\
    (isNull (getenv "MIZITO_LOGIN_CODE") -> code = JNull) /\
    (~ isNull (getenv "MIZITO_LOGIN_CODE") ->
     code = JString (toValidUTF8 (getenv "MIZITO_LOGIN_CODE"))) /\
    (isNull (getenv "MIZITO_REG_ID") -> reg = JNull) /\
    (~ isNull (getenv "MIZITO_REG_ID") ->
     reg = JString (toValidUTF8 (getenv "MIZITO_REG_ID"))) /\
    code <> JString "null" /\ reg <> JString "null".
Proof.
  assert (forall v,
            let f := override getenv v "null" in
            ((getenv v = "" \/ getenv v = "null") -> nullable f = JNull) /\
            (~ (getenv v = "" \/ getenv v = "null") ->
             nullable f = JString (toValidUTF8 (getenv v))) /\
            nullable f <> JString "null") as Hn.
  { intros v. cbv zeta. unfold override, nullable.
    destruct (String.eqb_spec (getenv v) "") as [He | He]; cbn [negb].
    - cbn. repeat split; [tauto | discriminate].
    - destruct (String.eqb_spec (getenv v) "") as [|_]; [contradiction|].
      destruct (String.eqb_spec (getenv v) "null") as [Hl | Hl]; cbn [negb andb].
      + repeat split; [tauto | discriminate].
      + split; [tauto|]. split; [reflexivity|].
        intros H. injection H as H. apply Hl.
        destruct (getenv v) as [|c0 s0] eqn:Hg; [contradiction|].
        revert H. clear. intros H. exact (toValidUTF8_null _ H). }
  unfold Load. destruct (validate _) eqn:Hv; [discriminate|].
  intros H. injection H as <-. cbv zeta.
  unfold loginRequestBody.
  cbn [MizitoUsername MizitoPassword MizitoLoginCode MizitoRegID DefaultConfig].
  revert Hv. unfold validate, override.
  cbn [MizitoUsername MizitoPassword MizitoDialogID MizitoFromUserID DefaultConfig].
  destruct (String.eqb_spec (getenv "MIZITO_USERNAME") "") as [Hu | Hu]; cbn [negb].
  { cbn. discriminate. }
  destruct (String.eqb_spec (getenv "MIZITO_USERNAME") ""); [contradiction|].
  destruct (String.eqb_spec (getenv "MIZITO_PASSWORD") "") as [Hp | Hp]; cbn [negb].
  { cbn. discriminate. }
  intros _.
  destruct (Hn "MIZITO_LOGIN_CODE") as (C1 & C2 & C3).
  destruct (Hn "MIZITO_REG_ID") as (R1 & R2 & R3).
  eexists. eexists. split; [reflexivity|]. repeat split; assumption.
Qed.

(** ** Concrete runs: numerals, handler, configuration *)

Lemma toPersianNumeral_value_witness :
  option_map fst (persianValue (toPersianNumeral 23)) = Some 23.
Proof. apply (proj1 (toPersianNumeral_value 23)). lia. Defined.

Lemma formatPersianTime_reads_back_witness :
  parsePersianTime (formatPersianTime 9 5) = Some (9, 5).
Proof. apply (formatPersianTime_reads_back 9 5); lia. Defined.

Lemma AppTokenMiddleware_admits_witness :
  let r := mkRequest "" [("Authorization", "Bearer s3cret")] gotifyDiskFull in
  let next := fun _ : Request => ret (mkResponse 200 NotificationSent) in
  AppTokenMiddleware "s3cret" next r = next r.
Proof.
  intros r next.
  apply (proj1 (proj2 (AppTokenMiddleware_admits "s3cret" next r) ltac:(discriminate))).
  right. split; reflexivity.
Defined.

Lemma AppTokenMiddleware_ignores_gotify_key_witness :
  let r := mkRequest "" [("X-Gotify-Key", "s3cret")] gotifyDiskFull in
  let next := fun _ : Request => ret (mkResponse 200 NotificationSent) in
  AppTokenMiddleware "s3cret" next r = ret (mkResponse 401 UnauthorizedJSON).
Proof.
  intros r next.
  apply (proj1 (AppTokenMiddleware_ignores_gotify_key "s3cret" next r
                  ltac:(discriminate) eq_refl eq_refl)).
Defined.

Lemma notificationText_shape_witness :
  notificationText "Disk" "full" = "Disk: full".
Proof.
  apply (proj1 (notificationText_shape "Disk" "full")); discriminate.
Defined.



Lemma Load_requires_witness :
  exists c, Load (fun s => s) exampleEnviron = inl c.
Proof.
  apply (proj1 (Load_requires (fun s => s) exampleEnviron)).
  repeat split; discriminate.
Defined.

Lemma loginRequestBody_null_fields_witness :
  exists code reg,
    loginRequestBody exampleConfig =
      JObject [("username", JString (toValidUTF8 "user@example.com"));
               ("password", JString (toValidUTF8 "secret"));
               ("loginCode", code); ("regId", reg)] /\
    code = JNull /\ reg = JNull.
Proof.
  destruct (loginRequestBody_null_fields (fun s => s) exampleEnviron exampleConfig eq_refl)
    as (code & reg & Hb & C1 & _ & R1 & _).
  exists code, reg. split; [exact Hb|].
  split; [apply C1; right; reflexivity | apply R1; left; reflexivity].
Defined.
